(** * Hanau: session-oriented messaging over WebSockets

    A shallow embedding of the two classes of the library, [HanauServer]
    and [HanauClient], and the properties of the session-continuity
    protocol they implement.

    Conventions of the embedding.
    - JavaScript numbers that hold packet ids, counters and byte counts are
      modelled as [Z]; the sources only increment and compare them.
    - A JavaScript [Map] is an insertion-ordered association list ([JsMap]):
      [set] on an existing key keeps the key's position, [delete] removes
      what is stored under the key, iteration follows insertion order.
    - WebSocket objects are shared mutable objects.  They live in a store
      (a list indexed by reference) and the registry holds references, so an
      update through one alias is seen through all of them.
    - Every call into the transport and every application callback is
      appended to a chronological trace of effects.
    - The event loop is a function from an event and a state to a state;
      a run is a left-to-right fold over a list of events.
    - A listener table is a plain object.  Its own properties are kept in an
      association list; a key that is not an own property is looked up on
      the prototype chain, whose member names are listed below.  Assigning
      to the key [__proto__] creates no own property but replaces the
      object's prototype: the entry under that key stands for the value so
      installed.
    - Callbacks are opaque function objects named by reference.  Where the
      server's listener table has one as its prototype, a read of one of
      that function's own members is recorded as such and not followed
      further, and an assignment under such a name is taken to create the
      own property, as it does under any other name. *)

From Stdlib Require Import ZArith Lia Sorted.
From stdpp Require Import base numbers list strings pretty.

Local Open Scope Z_scope.

(** ** Insertion-ordered maps (JavaScript [Map]) *)

Module JsMap.
Section Ops.
Context {K V : Type} `{EqDecision K}.

Fixpoint get (k : K) (m : list (K * V)) : option V :=
  match m with
  | [] => None
  | (k', v) :: r => if decide (k = k') then Some v else get k r
  end.

Definition has (k : K) (m : list (K * V)) : bool :=
  match get k m with Some _ => true | None => false end.

Fixpoint set (k : K) (v : V) (m : list (K * V)) : list (K * V) :=
  match m with
  | [] => [(k, v)]
  | (k', v') :: r =>
      if decide (k = k') then (k, v) :: r else (k', v') :: set k v r
  end.

Fixpoint delete (k : K) (m : list (K * V)) : list (K * V) :=
  match m with
  | [] => []
  | (k', v') :: r =>
      if decide (k = k') then delete k r else (k', v') :: delete k r
  end.

Definition keys (m : list (K * V)) : list K := m.*1.

Definition size (m : list (K * V)) : nat := length m.
End Ops.
End JsMap.

(** [Math.min(...xs)] on a non-empty argument list; with no argument
    JavaScript answers [Infinity], modelled as [None]. *)
Definition math_min (xs : list Z) : option Z :=
  match xs with
  | [] => None
  | x :: r => Some (foldr Z.min x r)
  end.

(** ** Packets *)

(** [command: string | number]. *)
Inductive Command :=
| CStr (s : string)
| CNum (n : Z).

Global Instance Command_eq_dec : EqDecision Command.
Proof. solve_decision. Defined.

(** The property key a command selects in a listener table. *)
Definition command_key (c : Command) : string :=
  match c with
  | CStr s => s
  | CNum n => pretty n
  end.

(** JavaScript truthiness of a command. *)
Definition command_truthy (c : Command) : bool :=
  match c with
  | CStr s => negb (bool_decide (s = ""%string))
  | CNum n => negb (n =? 0)
  end.

(** *** Property keys a plain object inherits

    The string-keyed members of [Object.prototype] (ECMAScript, Annex B
    included).  Every one of them holds a truthy value: a built-in function,
    or for [__proto__] the prototype object itself. *)
Definition object_prototype_keys : list string :=
  ["constructor"; "hasOwnProperty"; "isPrototypeOf"; "propertyIsEnumerable";
   "toLocaleString"; "toString"; "valueOf"; "__defineGetter__";
   "__defineSetter__"; "__lookupGetter__"; "__lookupSetter__"; "__proto__"].

(** The string-keyed methods of [Array.prototype] (ECMAScript 2023) that
    [Object.prototype] does not already name. *)
Definition array_prototype_keys : list string :=
  ["at"; "concat"; "copyWithin"; "entries"; "every"; "fill"; "filter";
   "find"; "findIndex"; "findLast"; "findLastIndex"; "flat"; "flatMap";
   "forEach"; "includes"; "indexOf"; "join"; "keys"; "lastIndexOf"; "map";
   "pop"; "push"; "reduce"; "reduceRight"; "reverse"; "shift"; "slice";
   "some"; "sort"; "splice"; "toReversed"; "toSorted"; "toSpliced";
   "unshift"; "values"; "with"].

(** The methods of [Function.prototype] that [Object.prototype] does not
    already name, and the members whose value depends on the function
    object they are read from. *)
Definition function_prototype_keys : list string := ["apply"; "bind"; "call"].

Definition function_member_keys : list string :=
  ["length"; "name"; "prototype"; "arguments"; "caller"].

(** The index keys of an array of [n] elements. *)
Definition index_keys (n : nat) : list string :=
  (λ i, pretty (Z.of_nat i)) <$> seq 0 n.

(** [data: any].  Payloads are opaque to the protocol except for the two
    fields the server reads from a handshake and the body of the error
    reply it builds. *)
Inductive Data :=
| DNull
| DValue (payload : string)
| DError (message : string)
| DHandshake (sessionId : option string) (lastReceivedId : option Z)
             (extra : string).

Record Packet := mkPacket {
  id : Z;
  command : Command;
  data : Data;
}.

(** What [JSON.parse(raw.toString())] yields for a frame: a parse error or
    an object read as a packet. *)
Inductive Raw :=
| RawInvalid
| RawMsg (msg : Packet).

(** ** Transport boundary *)

Inductive ReadyState := CONNECTING | OPEN | CLOSING | CLOSED.

Global Instance ReadyState_eq_dec : EqDecision ReadyState.
Proof. solve_decision. Defined.

Definition is_open (r : ReadyState) : bool :=
  match r with OPEN => true | _ => false end.

(** ** The server: class [HanauServer] *)

Module Server.

(** [HanauWebSocket]: a transport socket extended with the fields the server
    hangs on it.  [readyState] and [bufferedAmount] belong to the transport. *)
Record HanauWebSocket := mkWs {
  sessionId : option string;
  isAlive : bool;
  lastSentId : Z;
  readyState : ReadyState;
  bufferedAmount : Z;
}.

Definition set_sessionId (v : option string) (w : HanauWebSocket) :=
  mkWs v (isAlive w) (lastSentId w) (readyState w) (bufferedAmount w).
Definition set_isAlive (v : bool) (w : HanauWebSocket) :=
  mkWs (sessionId w) v (lastSentId w) (readyState w) (bufferedAmount w).
Definition set_lastSentId (v : Z) (w : HanauWebSocket) :=
  mkWs (sessionId w) (isAlive w) v (readyState w) (bufferedAmount w).
Definition set_readyState (v : ReadyState) (w : HanauWebSocket) :=
  mkWs (sessionId w) (isAlive w) (lastSentId w) v (bufferedAmount w).
Definition set_bufferedAmount (v : Z) (w : HanauWebSocket) :=
  mkWs (sessionId w) (isAlive w) (lastSentId w) (readyState w) v.

(** Result of a handshake hook: [true] or [{ code, reason }]. *)
Inductive HookResult :=
| HookTrue
| HookReject (code : Z) (reason : string).

(** Calls into the transport and into application callbacks.  Sockets and
    callbacks are named by reference.  [CbInherited key] is the call of the
    value the listener table inherits under [key] (a built-in function, or a
    [TypeError] where the value is not callable).  [CbMember fn key] is the
    read of member [key] of the function object [fn] through the prototype
    chain: function objects are opaque here, and what the code does next
    (call a truthy member, send the [error] reply for a falsy one) is left
    open by the embedding. *)
Inductive Effect :=
| WsSend (ws : nat) (packet : Packet)
| WsClose (ws : nat) (code : option Z) (reason : string)
| WsTerminate (ws : nat)
| WsPing (ws : nat)
| WssClose
| CbConnection (fn : nat) (sid : string)
| CbDisconnection (fn : nat) (sid : string)
| CbMessage (handler : nat) (d : Data) (sid : string) (packetId : Z)
| CbInherited (key : string) (d : Data) (sid : string) (packetId : Z)
| CbMember (fn : nat) (key : string) (d : Data) (sid : string) (packetId : Z).

(** A callback queued by [setImmediate]: the replay closure with the
    variables it captured. *)
Record Replay := mkReplay {
  rp_sessionId : string;
  rp_lastReceivedId : Z;
  rp_extWs : nat;
}.

Record HanauServer := mkServer {
  sockets : list HanauWebSocket;
  clients : list (string * nat);
  clientHistories : list (string * list (Z * Packet));
  messageListeners : list (string * nat);
  connectionListeners : list nat;
  disconnectionListeners : list nat;
  handshakeListeners : list (Data → HookResult);
  pingInterval : bool;
  immediates : list Replay;
  trace : list Effect;
}.

Definition set_sockets v (s : HanauServer) :=
  mkServer v (clients s) (clientHistories s) (messageListeners s)
    (connectionListeners s) (disconnectionListeners s) (handshakeListeners s)
    (pingInterval s) (immediates s) (trace s).
Definition set_clients v (s : HanauServer) :=
  mkServer (sockets s) v (clientHistories s) (messageListeners s)
    (connectionListeners s) (disconnectionListeners s) (handshakeListeners s)
    (pingInterval s) (immediates s) (trace s).
Definition set_clientHistories v (s : HanauServer) :=
  mkServer (sockets s) (clients s) v (messageListeners s)
    (connectionListeners s) (disconnectionListeners s) (handshakeListeners s)
    (pingInterval s) (immediates s) (trace s).
Definition set_messageListeners v (s : HanauServer) :=
  mkServer (sockets s) (clients s) (clientHistories s) v
    (connectionListeners s) (disconnectionListeners s) (handshakeListeners s)
    (pingInterval s) (immediates s) (trace s).
Definition set_connectionListeners v (s : HanauServer) :=
  mkServer (sockets s) (clients s) (clientHistories s) (messageListeners s)
    v (disconnectionListeners s) (handshakeListeners s)
    (pingInterval s) (immediates s) (trace s).
Definition set_disconnectionListeners v (s : HanauServer) :=
  mkServer (sockets s) (clients s) (clientHistories s) (messageListeners s)
    (connectionListeners s) v (handshakeListeners s)
    (pingInterval s) (immediates s) (trace s).
Definition set_handshakeListeners v (s : HanauServer) :=
  mkServer (sockets s) (clients s) (clientHistories s) (messageListeners s)
    (connectionListeners s) (disconnectionListeners s) v
    (pingInterval s) (immediates s) (trace s).
Definition set_pingInterval v (s : HanauServer) :=
  mkServer (sockets s) (clients s) (clientHistories s) (messageListeners s)
    (connectionListeners s) (disconnectionListeners s) (handshakeListeners s)
    v (immediates s) (trace s).
Definition set_immediates v (s : HanauServer) :=
  mkServer (sockets s) (clients s) (clientHistories s) (messageListeners s)
    (connectionListeners s) (disconnectionListeners s) (handshakeListeners s)
    (pingInterval s) v (trace s).
Definition set_trace v (s : HanauServer) :=
  mkServer (sockets s) (clients s) (clientHistories s) (messageListeners s)
    (connectionListeners s) (disconnectionListeners s) (handshakeListeners s)
    (pingInterval s) (immediates s) v.

Definition emit (es : list Effect) (s : HanauServer) : HanauServer :=
  set_trace (trace s ++ es) s.

(** Update the object behind reference [r]. *)
Definition update_ws (r : nat) (f : HanauWebSocket → HanauWebSocket)
    (s : HanauServer) : HanauServer :=
  match sockets s !! r with
  | Some w => set_sockets (<[r := f w]> (sockets s)) s
  | None => s
  end.

(** *** The transport's side of the socket API

    [close] starts the closing handshake of an open socket, [terminate]
    destroys the socket; in both cases the socket stops being [OPEN] at once
    and its 'close' event is delivered later by the event loop.  [send] and
    [ping] hand a frame to the socket. *)

Definition closing (w : HanauWebSocket) : HanauWebSocket :=
  match readyState w with
  | CLOSED => w
  | _ => set_readyState CLOSING w
  end.

Definition ws_close (r : nat) (code : option Z) (reason : string)
    (s : HanauServer) : HanauServer :=
  emit [WsClose r code reason] (update_ws r closing s).

Definition ws_terminate (r : nat) (s : HanauServer) : HanauServer :=
  emit [WsTerminate r] (update_ws r closing s).

Definition ws_ping (r : nat) (s : HanauServer) : HanauServer :=
  emit [WsPing r] s.

(** [_send(ws, packet)]: [ws.send(JSON.stringify(packet))]. *)
Definition _send (r : nat) (packet : Packet) (s : HanauServer) : HanauServer :=
  emit [WsSend r packet] s.

(** [this.disconnectionListeners.forEach((fn) => fn(sid))]. *)
Definition notify_disconnection (sid : string) (s : HanauServer) : HanauServer :=
  emit (map (λ fn, CbDisconnection fn sid) (disconnectionListeners s)) s.

Definition notify_connection (sid : string) (s : HanauServer) : HanauServer :=
  emit (map (λ fn, CbConnection fn sid) (connectionListeners s)) s.

(** Truthiness of [ws.sessionId]. *)
Definition truthy_sid (o : option string) : option string :=
  match o with
  | Some sid => if decide (sid = ""%string) then None else Some sid
  | None => None
  end.

(** *** Constructor *)

(** [new HanauServer({ port, wss })] once a transport server is at hand. *)
Definition new_server : HanauServer :=
  mkServer [] [] [] [] [] [] [] true [] [].

(** [wss.on("connection", ...)]: the new socket is open, alive, and its id
    counter starts at zero. *)
Definition on_connection (s : HanauServer) : HanauServer :=
  set_sockets (sockets s ++ [mkWs None true 0 OPEN 0]) s.

(** [extWs.on("pong", ...)]. *)
Definition on_pong (r : nat) (s : HanauServer) : HanauServer :=
  update_ws r (set_isAlive true) s.

(** The [for ... of this.handshakeListeners] loop: the first hook that does
    not answer [true] ends it.  Hooks are pure here; each [await] only hands
    control back to the event loop before the rest of the handler, which
    reads the server state afresh. *)
Fixpoint run_hooks (hooks : list (Data → HookResult)) (d : Data)
  : HookResult :=
  match hooks with
  | [] => HookTrue
  | hook :: rest =>
      match hook d with
      | HookTrue => run_hooks rest d
      | HookReject c r => HookReject c r
      end
  end.

(** The rest of the handshake branch, from the duplicate-session check to
    the connection listeners: it runs without interruption. *)
Definition accept_handshake (r : nat) (sid : string) (lastReceivedId : Z)
    (s : HanauServer) : HanauServer :=
  let s :=
    match JsMap.get sid (clients s) with
    | Some oldWs => ws_close oldWs (Some 4002) "duplicate session" s
    | None => s
    end in
  let s := update_ws r (set_sessionId (Some sid)) s in
  let s := set_clients (JsMap.set sid r (clients s)) s in
  let s := update_ws r (λ w, set_lastSentId (lastSentId w + 1) w) s in
  let ackId := match sockets s !! r with Some w => lastSentId w | None => 0 end in
  let s := _send r (mkPacket ackId (CStr "handshake_ack") DNull) s in
  let s :=
    if JsMap.has sid (clientHistories s) then s
    else set_clientHistories (JsMap.set sid [] (clientHistories s)) s in
  let s := set_immediates (immediates s ++ [mkReplay sid lastReceivedId r]) s in
  notify_connection sid s.

(** The body of the [setImmediate] callback: replay missed messages. *)
Definition replay (rp : Replay) (s : HanauServer) : HanauServer :=
  match JsMap.get (rp_sessionId rp) (clientHistories s) with
  | None => s
  | Some history =>
      foldl (λ s (e : Z * Packet),
               if rp_lastReceivedId rp <? e.1 then _send (rp_extWs rp) e.2 s
               else s)
            s history
  end.

(** What [this.messageListeners[key]] finds when [key] is not an own
    property.  With the prototype the object is created with, that is a
    member of [Object.prototype].  Once [on("__proto__", fn)] has installed
    the function [fn] as prototype, the chain goes through [fn] and
    [Function.prototype] first. *)
Inductive Inherited :=
| InheritedValue
| InheritedMember (fn : nat)
| NotInherited.

Definition inherited (key : string) (m : list (string * nat)) : Inherited :=
  if bool_decide (key ∈ object_prototype_keys) then InheritedValue
  else
    match JsMap.get "__proto__" m with
    | Some fn =>
        if bool_decide (key ∈ function_prototype_keys) then InheritedValue
        else if bool_decide (key ∈ function_member_keys) then InheritedMember fn
        else NotInherited
    | None => NotInherited
    end.

(** [extWs.on("message", ...)]. *)
Definition on_message (r : nat) (raw : Raw) (s : HanauServer) : HanauServer :=
  match sockets s !! r with
  | None => s
  | Some extWs =>
    match raw with
    | RawInvalid => ws_close r (Some 1003) "invalid JSON" s
    | RawMsg msg =>
      if decide (command msg = CStr "handshake") then
        let '(sid, lastReceivedId) :=
          match data msg with
          | DHandshake sid l _ => (sid, default 0 l)
          | _ => (None, 0)
          end in
        match truthy_sid sid with
        | None => ws_close r (Some 4001) "handshake missing sessionId" s
        | Some sid =>
            match run_hooks (handshakeListeners s) (data msg) with
            | HookReject code reason => ws_close r (Some code) reason s
            | HookTrue => accept_handshake r sid lastReceivedId s
            end
        end
      else
        match truthy_sid (sessionId extWs) with
        | None => ws_close r (Some 4003) "handshake required" s
        | Some sid =>
          if decide (command msg = CStr "ping") then
            _send r (mkPacket (id msg) (CStr "pong") DNull) s
          else
            match JsMap.get (command_key (command msg)) (messageListeners s) with
            | Some handler => emit [CbMessage handler (data msg) sid (id msg)] s
            | None =>
                let key := command_key (command msg) in
                match inherited key (messageListeners s) with
                | InheritedValue =>
                    emit [CbInherited key (data msg) sid (id msg)] s
                | InheritedMember fn =>
                    emit [CbMember fn key (data msg) sid (id msg)] s
                | NotInherited =>
                    _send r (mkPacket (id msg) (CStr "error")
                                      (DError "unknown command")) s
                end
            end
        end
    end
  end.

(** [extWs.on("close", ...)]; the transport has closed the socket. *)
Definition on_close (r : nat) (s : HanauServer) : HanauServer :=
  let s := update_ws r (set_readyState CLOSED) s in
  match sockets s !! r with
  | None => s
  | Some extWs =>
      match truthy_sid (sessionId extWs) with
      | Some sid =>
          notify_disconnection sid (set_clients (JsMap.delete sid (clients s)) s)
      | None => s
      end
  end.

(** One visit of the liveness sweep. *)
Definition sweep_client (r : nat) (s : HanauServer) : HanauServer :=
  match sockets s !! r with
  | None => s
  | Some client =>
      if negb (isAlive client) then
        let s := ws_terminate r s in
        match truthy_sid (sessionId client) with
        | Some sid =>
            notify_disconnection sid
              (set_clients (JsMap.delete sid (clients s)) s)
        | None => s
        end
      else
        ws_ping r (update_ws r (set_isAlive false) s)
  end.

(** [this.clients.forEach(f)]: entries are visited in insertion order and an
    entry deleted before its turn is skipped.  The callbacks below only ever
    delete entries, so walking the entries present at the start and skipping
    those no longer bound is the same iteration. *)
Fixpoint clients_forEach (f : nat → HanauServer → HanauServer)
    (todo : list (string * nat)) (s : HanauServer) : HanauServer :=
  match todo with
  | [] => s
  | (k, r) :: rest =>
      if decide (JsMap.get k (clients s) = Some r)
      then clients_forEach f rest (f r s)
      else clients_forEach f rest s
  end.

(** The [setInterval] callback (every 30000 ms). *)
Definition ping_sweep (s : HanauServer) : HanauServer :=
  clients_forEach sweep_client (clients s) s.

(** *** Methods *)

(** [on(command, handler)]: [this.messageListeners[command] = handler].
    Under the key [__proto__] the assignment installs [handler] as the
    table's prototype; the entry under that key records it. *)
Definition on (cmd : string) (handler : nat) (s : HanauServer) :=
  set_messageListeners (JsMap.set cmd handler (messageListeners s)) s.

Definition onConnection (fn : nat) (s : HanauServer) :=
  set_connectionListeners (connectionListeners s ++ [fn]) s.

Definition onDisconnection (fn : nat) (s : HanauServer) :=
  set_disconnectionListeners (disconnectionListeners s ++ [fn]) s.

Definition onHandshake (fn : Data → HookResult) (s : HanauServer) :=
  set_handshakeListeners (handshakeListeners s ++ [fn]) s.

(** [if (!ws.lastSentId) ws.lastSentId = 0; ws.lastSentId++]. *)
Definition bump (w : HanauWebSocket) : HanauWebSocket :=
  let w := if lastSentId w =? 0 then set_lastSentId 0 w else w in
  set_lastSentId (lastSentId w + 1) w.

(** [history.set(packet.id, packet)] followed by the limit of 100. *)
Definition history_record (packet : Packet) (history : list (Z * Packet))
  : list (Z * Packet) :=
  let history := JsMap.set (id packet) packet history in
  if (100 <? JsMap.size history)%nat then
    match math_min (JsMap.keys history) with
    | Some oldestId => JsMap.delete oldestId history
    | None => history
    end
  else history.

(** [send(sessionId, command, data)]. *)
Definition send (sid : string) (cmd : Command) (d : Data) (s : HanauServer)
  : HanauServer :=
  match JsMap.get sid (clients s) with
  | None => s
  | Some r =>
    match sockets s !! r with
    | None => s
    | Some ws =>
      if negb (is_open (readyState ws)) then s
      else
        let s := update_ws r bump s in
        let packet := mkPacket (lastSentId (bump ws)) cmd d in
        if 5000000 <? bufferedAmount ws then
          let s := ws_terminate r s in
          let s := set_clients (JsMap.delete sid (clients s)) s in
          notify_disconnection sid s
        else
          let s :=
            if JsMap.has sid (clientHistories s) then s
            else set_clientHistories (JsMap.set sid [] (clientHistories s)) s in
          match JsMap.get sid (clientHistories s) with
          | None => s
          | Some history =>
              let s := set_clientHistories
                         (JsMap.set sid (history_record packet history)
                                    (clientHistories s)) s in
              _send r packet s
          end
    end
  end.

(** One visit of [broadcast]. *)
Definition broadcast_client (cmd : Command) (d : Data) (r : nat)
    (s : HanauServer) : HanauServer :=
  match sockets s !! r with
  | None => s
  | Some ws =>
      if negb (is_open (readyState ws)) then s
      else
        let s := update_ws r bump s in
        _send r (mkPacket (lastSentId (bump ws)) cmd d) s
  end.

(** [broadcast(command, data)]. *)
Definition broadcast (cmd : Command) (d : Data) (s : HanauServer) :=
  clients_forEach (broadcast_client cmd d) (clients s) s.

(** [close()]. *)
Definition close (s : HanauServer) : HanauServer :=
  let s := set_pingInterval false s in
  let s := emit [WssClose] s in
  let s := clients_forEach (λ r s, ws_close r None "" s) (clients s) s in
  set_clients [] s.

(** *** The event loop *)

Inductive Event :=
| EvConnection
| EvPong (ws : nat)
| EvMessage (ws : nat) (raw : Raw)
| EvClose (ws : nat)
| EvPeerClosing (ws : nat)
| EvBuffered (ws : nat) (bytes : Z)
| EvImmediate
| EvPingInterval
| CallOn (cmd : string) (handler : nat)
| CallOnConnection (fn : nat)
| CallOnDisconnection (fn : nat)
| CallOnHandshake (fn : Data → HookResult)
| CallSend (sid : string) (cmd : Command) (d : Data)
| CallBroadcast (cmd : Command) (d : Data)
| CallClose.

Definition step (s : HanauServer) (e : Event) : HanauServer :=
  match e with
  | EvConnection => on_connection s
  | EvPong r => on_pong r s
  | EvMessage r raw => on_message r raw s
  | EvClose r => on_close r s
  | EvPeerClosing r => update_ws r closing s
  | EvBuffered r n => update_ws r (set_bufferedAmount n) s
  | EvImmediate =>
      match immediates s with
      | [] => s
      | rp :: rest => replay rp (set_immediates rest s)
      end
  | EvPingInterval => if pingInterval s then ping_sweep s else s
  | CallOn cmd h => on cmd h s
  | CallOnConnection fn => onConnection fn s
  | CallOnDisconnection fn => onDisconnection fn s
  | CallOnHandshake fn => onHandshake fn s
  | CallSend sid cmd d => send sid cmd d s
  | CallBroadcast cmd d => broadcast cmd d s
  | CallClose => close s
  end.

Definition run (events : list Event) (s : HanauServer) : HanauServer :=
  foldl step s events.

(** A client's handshake frame. *)
Definition handshake_msg (n : Z) (sid : string) (lastReceivedId : Z) : Raw :=
  RawMsg (mkPacket n (CStr "handshake")
                   (DHandshake (Some sid) (Some lastReceivedId) "")).

(** The packets handed to sockets, in order. *)
Definition sent_packets (t : list Effect) : list (nat * Packet) :=
  omap (λ e, match e with WsSend r p => Some (r, p) | _ => None end) t.

(** The ids handed to sockets that are bound to session [sid] in [s]. *)
Definition ids_sent_to (sid : string) (s : HanauServer) : list Z :=
  omap (λ '(r, p),
          match sockets s !! r with
          | Some w => if decide (sessionId w = Some sid) then Some (id p) else None
          | None => None
          end)
       (sent_packets (trace s)).

(** The mark a backpressure cut leaves on the server: socket [r] was
    terminated and is no longer open, every disconnection listener was told
    about [sid] and nothing else happened on the wire, the session is unbound,
    and the histories are as they were. *)
Definition backpressure_cut (sid : string) (r : nat) (s s' : HanauServer)
  : Prop :=
  trace s' = trace s ++ (WsTerminate r
               :: map (λ fn, CbDisconnection fn sid) (disconnectionListeners s))
  ∧ (∃ w', sockets s' !! r = Some w' ∧ readyState w' ≠ OPEN)
  ∧ JsMap.get sid (clients s') = None
  ∧ clientHistories s' = clientHistories s.

(** The history kept for a session ([undefined] read as no entries). *)
Definition history_of (sid : string) (s : HanauServer) : list (Z * Packet) :=
  default [] (JsMap.get sid (clientHistories s)).

(** A well-formed history: within the limit, one entry per id. *)
Definition history_ok (h : list (Z * Packet)) : Prop :=
  (JsMap.size h ≤ 100)%nat ∧ NoDup (JsMap.keys h).

Definition histories_ok (s : HanauServer) : Prop :=
  Forall (λ e, history_ok e.2) (clientHistories s).

(** A client that connects, binds session [sid], and is sent [n] packets. *)
Definition session_with_sends (sid : string) (n : nat) : list Event :=
  [EvConnection; EvMessage 0 (handshake_msg 1 sid 0)]
  ++ replicate n (CallSend sid (CStr "news") DNull).

(** The sessions the disconnection listeners were called with, in order. *)
Definition disconnections (t : list Effect) : list (nat * string) :=
  omap (λ e, match e with CbDisconnection fn sid => Some (fn, sid) | _ => None end)
       t.

Definition news : Command := CStr "news".

Definition ack (n : Z) : Packet := mkPacket n (CStr "handshake_ack") DNull.

(** A client binds session "s", is sent one packet, loses its connection and
    comes back on a new one, where it is sent another packet. *)
Definition reconnect_scenario : list Event :=
  [EvConnection; EvMessage 0 (handshake_msg 1 "s" 0); EvImmediate;
   CallSend "s" news DNull;
   EvClose 0;
   EvConnection; EvMessage 1 (handshake_msg 2 "s" 2); EvImmediate;
   CallSend "s" news DNull].

(** A second connection presents session "s" while the first is bound. *)
Definition duplicate_session_scenario : list Event :=
  [CallOnDisconnection 7;
   EvConnection; EvMessage 0 (handshake_msg 1 "s" 0); EvImmediate;
   EvConnection; EvMessage 1 (handshake_msg 1 "s" 0); EvImmediate].

(** Session "s" is served by three connections in turn.  The frames after
    the first acknowledgement never reach the client, which therefore keeps
    presenting [lastReceivedId = 1]. *)
Definition lossy_scenario : list Event :=
  [EvConnection; EvMessage 0 (handshake_msg 1 "s" 0); EvImmediate;
   CallBroadcast news DNull; CallSend "s" news DNull;
   EvClose 0;
   EvConnection; EvMessage 1 (handshake_msg 2 "s" 1); EvImmediate;
   CallSend "s" news DNull;
   EvClose 1;
   EvConnection; EvMessage 2 (handshake_msg 3 "s" 1)].

(** Session "s" is bound and its (empty) replay has run. *)
Definition bound_scenario : list Event :=
  [CallOnDisconnection 7;
   EvConnection; EvMessage 0 (handshake_msg 1 "s" 0); EvImmediate].

(** The bound connection answers no ping: the first sweep clears its flag and
    pings, the second finds the flag still clear, and the transport then
    reports the terminated socket closed. *)
Definition liveness_timeout_scenario : list Event :=
  bound_scenario ++ [EvPingInterval; EvPingInterval; EvClose 0].

(** The calls made to command handlers, in order. *)
Definition handled (t : list Effect) : list (nat * Data * string * Z) :=
  omap (λ e, match e with
             | CbMessage h d sid n => Some (h, d, sid, n)
             | _ => None
             end) t.

(** [w'] is a later state of the socket object [w]: its counter has not
    gone down and a session id it carried has not been taken away. *)
Definition socket_le (w w' : HanauWebSocket) : Prop :=
  lastSentId w ≤ lastSentId w'
  ∧ (is_Some (truthy_sid (sessionId w)) → is_Some (truthy_sid (sessionId w'))).

(** Every socket of [s] is still there in [s'], in a later state. *)
Definition sockets_grow (s s' : HanauServer) : Prop :=
  ∀ r w, sockets s !! r = Some w →
         ∃ w', sockets s' !! r = Some w' ∧ socket_le w w'.

(** A well-formed registry: one entry per session id, and every entry refers
    to a socket of the store that carries a session id. *)
Definition registry_ok (s : HanauServer) : Prop :=
  NoDup (JsMap.keys (clients s))
  ∧ Forall (λ e, ∃ w, sockets s !! e.2 = Some w
                      ∧ is_Some (truthy_sid (sessionId w)))
           (clients s).

(** The registry entries whose socket is open, in registry order. *)
Definition bound_open (s : HanauServer) : list (string * nat) :=
  filter (λ e, (readyState <$> sockets s !! e.2) = Some OPEN) (clients s).

(** Going from [s] to [s'] kept every socket and bound nothing new: the
    registry of [s'] is what is left of the registry of [s] after removing
    entries. *)
Definition shrinks (s s' : HanauServer) : Prop :=
  sockets_grow s s' ∧ clients s' `sublist_of` clients s.

End Server.

(** ** The client: class [HanauClient] *)

Module Client.

(** A registered message listener: the one the constructor installs for
    [handshake_ack], or an application callback named by reference. *)
Inductive Listener :=
| LHandshakeAck
| LApp (fn : nat).

Global Instance Listener_eq_dec : EqDecision Listener.
Proof. solve_decision. Defined.

(** The three timer callbacks of the client. *)
Inductive Timer :=
| THandshake
| TPing
| TReconnect.

(** Calls into the transport, the timer API and application callbacks.
    [Dispatch] is a marker: it records that [_handleMessage] reached its
    listener loop for a packet (the listeners themselves only see
    [msg.data]). *)
Inductive Effect :=
| WsNew (k : nat)
| WsSend (k : nat) (packet : Packet)
| WsClose (k : nat)
| CbOpen (fn : nat)
| CbClose (fn : nat) (reason : string)
| Dispatch (msg : Packet)
| CbMessage (fn : nat) (d : Data)
| SetTimer (t : Timer) (ms : Z).

(** [extraHandshakeData], as the object spread in [onopen] reads it: whether
    it has a [sessionId] key and a [lastReceivedId] key of its own (each
    with the value the server will read, [None] for one it reads as
    missing), and its other keys, which are opaque.  A value the spread
    copies nothing from ([{}], [null], a number) is [no_extra]. *)
Record Extra := mkExtra {
  ex_sessionId : option (option string);
  ex_lastReceivedId : option (option Z);
  ex_rest : string;
}.

Definition no_extra : Extra := mkExtra None None "".

Record HanauClient := mkClient {
  ws : option nat;
  sockets : list ReadyState;
  alive : bool;
  lastSentId : Z;
  lastReceivedId : Z;
  reconnectCount : Z;
  mayReconnect : bool;
  handshakeComplete : bool;
  messageListeners : list (string * list Listener);
  openListeners : list nat;
  closeListeners : list nat;
  extraHandshakeData : Extra;
  unsentQueue : list Packet;
  hanauSessionID : string;
  _handshakeTimeout : option nat;
  pingInterval : option nat;
  timers : list (nat * Timer);
  nextTimer : nat;
  trace : list Effect;
}.

Definition set_ws (v : option nat) (c : HanauClient) : HanauClient :=
  mkClient v (sockets c) (alive c) (lastSentId c) (lastReceivedId c)
    (reconnectCount c) (mayReconnect c) (handshakeComplete c)
    (messageListeners c) (openListeners c) (closeListeners c)
    (extraHandshakeData c) (unsentQueue c) (hanauSessionID c)
    (_handshakeTimeout c) (pingInterval c) (timers c) (nextTimer c)
    (trace c).
Definition set_sockets (v : list ReadyState) (c : HanauClient) : HanauClient :=
  mkClient (ws c) v (alive c) (lastSentId c) (lastReceivedId c)
    (reconnectCount c) (mayReconnect c) (handshakeComplete c)
    (messageListeners c) (openListeners c) (closeListeners c)
    (extraHandshakeData c) (unsentQueue c) (hanauSessionID c)
    (_handshakeTimeout c) (pingInterval c) (timers c) (nextTimer c)
    (trace c).
Definition set_alive (v : bool) (c : HanauClient) : HanauClient :=
  mkClient (ws c) (sockets c) v (lastSentId c) (lastReceivedId c)
    (reconnectCount c) (mayReconnect c) (handshakeComplete c)
    (messageListeners c) (openListeners c) (closeListeners c)
    (extraHandshakeData c) (unsentQueue c) (hanauSessionID c)
    (_handshakeTimeout c) (pingInterval c) (timers c) (nextTimer c)
    (trace c).
Definition set_lastSentId (v : Z) (c : HanauClient) : HanauClient :=
  mkClient (ws c) (sockets c) (alive c) v (lastReceivedId c)
    (reconnectCount c) (mayReconnect c) (handshakeComplete c)
    (messageListeners c) (openListeners c) (closeListeners c)
    (extraHandshakeData c) (unsentQueue c) (hanauSessionID c)
    (_handshakeTimeout c) (pingInterval c) (timers c) (nextTimer c)
    (trace c).
Definition set_lastReceivedId (v : Z) (c : HanauClient) : HanauClient :=
  mkClient (ws c) (sockets c) (alive c) (lastSentId c) v (reconnectCount c)
    (mayReconnect c) (handshakeComplete c) (messageListeners c)
    (openListeners c) (closeListeners c) (extraHandshakeData c)
    (unsentQueue c) (hanauSessionID c) (_handshakeTimeout c)
    (pingInterval c) (timers c) (nextTimer c) (trace c).
Definition set_reconnectCount (v : Z) (c : HanauClient) : HanauClient :=
  mkClient (ws c) (sockets c) (alive c) (lastSentId c) (lastReceivedId c) v
    (mayReconnect c) (handshakeComplete c) (messageListeners c)
    (openListeners c) (closeListeners c) (extraHandshakeData c)
    (unsentQueue c) (hanauSessionID c) (_handshakeTimeout c)
    (pingInterval c) (timers c) (nextTimer c) (trace c).
Definition set_mayReconnect (v : bool) (c : HanauClient) : HanauClient :=
  mkClient (ws c) (sockets c) (alive c) (lastSentId c) (lastReceivedId c)
    (reconnectCount c) v (handshakeComplete c) (messageListeners c)
    (openListeners c) (closeListeners c) (extraHandshakeData c)
    (unsentQueue c) (hanauSessionID c) (_handshakeTimeout c)
    (pingInterval c) (timers c) (nextTimer c) (trace c).
Definition set_handshakeComplete (v : bool) (c : HanauClient) : HanauClient :=
  mkClient (ws c) (sockets c) (alive c) (lastSentId c) (lastReceivedId c)
    (reconnectCount c) (mayReconnect c) v (messageListeners c)
    (openListeners c) (closeListeners c) (extraHandshakeData c)
    (unsentQueue c) (hanauSessionID c) (_handshakeTimeout c)
    (pingInterval c) (timers c) (nextTimer c) (trace c).
Definition set_messageListeners (v : list (string * list Listener)) (c : HanauClient) : HanauClient :=
  mkClient (ws c) (sockets c) (alive c) (lastSentId c) (lastReceivedId c)
    (reconnectCount c) (mayReconnect c) (handshakeComplete c) v
    (openListeners c) (closeListeners c) (extraHandshakeData c)
    (unsentQueue c) (hanauSessionID c) (_handshakeTimeout c)
    (pingInterval c) (timers c) (nextTimer c) (trace c).
Definition set_openListeners (v : list nat) (c : HanauClient) : HanauClient :=
  mkClient (ws c) (sockets c) (alive c) (lastSentId c) (lastReceivedId c)
    (reconnectCount c) (mayReconnect c) (handshakeComplete c)
    (messageListeners c) v (closeListeners c) (extraHandshakeData c)
    (unsentQueue c) (hanauSessionID c) (_handshakeTimeout c)
    (pingInterval c) (timers c) (nextTimer c) (trace c).
Definition set_closeListeners (v : list nat) (c : HanauClient) : HanauClient :=
  mkClient (ws c) (sockets c) (alive c) (lastSentId c) (lastReceivedId c)
    (reconnectCount c) (mayReconnect c) (handshakeComplete c)
    (messageListeners c) (openListeners c) v (extraHandshakeData c)
    (unsentQueue c) (hanauSessionID c) (_handshakeTimeout c)
    (pingInterval c) (timers c) (nextTimer c) (trace c).
Definition set_extraHandshakeData (v : Extra) (c : HanauClient) : HanauClient :=
  mkClient (ws c) (sockets c) (alive c) (lastSentId c) (lastReceivedId c)
    (reconnectCount c) (mayReconnect c) (handshakeComplete c)
    (messageListeners c) (openListeners c) (closeListeners c) v
    (unsentQueue c) (hanauSessionID c) (_handshakeTimeout c)
    (pingInterval c) (timers c) (nextTimer c) (trace c).
Definition set_unsentQueue (v : list Packet) (c : HanauClient) : HanauClient :=
  mkClient (ws c) (sockets c) (alive c) (lastSentId c) (lastReceivedId c)
    (reconnectCount c) (mayReconnect c) (handshakeComplete c)
    (messageListeners c) (openListeners c) (closeListeners c)
    (extraHandshakeData c) v (hanauSessionID c) (_handshakeTimeout c)
    (pingInterval c) (timers c) (nextTimer c) (trace c).
Definition set_hanauSessionID (v : string) (c : HanauClient) : HanauClient :=
  mkClient (ws c) (sockets c) (alive c) (lastSentId c) (lastReceivedId c)
    (reconnectCount c) (mayReconnect c) (handshakeComplete c)
    (messageListeners c) (openListeners c) (closeListeners c)
    (extraHandshakeData c) (unsentQueue c) v (_handshakeTimeout c)
    (pingInterval c) (timers c) (nextTimer c) (trace c).
Definition set_handshakeTimeout (v : option nat) (c : HanauClient) : HanauClient :=
  mkClient (ws c) (sockets c) (alive c) (lastSentId c) (lastReceivedId c)
    (reconnectCount c) (mayReconnect c) (handshakeComplete c)
    (messageListeners c) (openListeners c) (closeListeners c)
    (extraHandshakeData c) (unsentQueue c) (hanauSessionID c) v
    (pingInterval c) (timers c) (nextTimer c) (trace c).
Definition set_pingInterval (v : option nat) (c : HanauClient) : HanauClient :=
  mkClient (ws c) (sockets c) (alive c) (lastSentId c) (lastReceivedId c)
    (reconnectCount c) (mayReconnect c) (handshakeComplete c)
    (messageListeners c) (openListeners c) (closeListeners c)
    (extraHandshakeData c) (unsentQueue c) (hanauSessionID c)
    (_handshakeTimeout c) v (timers c) (nextTimer c) (trace c).
Definition set_timers (v : list (nat * Timer)) (c : HanauClient) : HanauClient :=
  mkClient (ws c) (sockets c) (alive c) (lastSentId c) (lastReceivedId c)
    (reconnectCount c) (mayReconnect c) (handshakeComplete c)
    (messageListeners c) (openListeners c) (closeListeners c)
    (extraHandshakeData c) (unsentQueue c) (hanauSessionID c)
    (_handshakeTimeout c) (pingInterval c) v (nextTimer c) (trace c).
Definition set_nextTimer (v : nat) (c : HanauClient) : HanauClient :=
  mkClient (ws c) (sockets c) (alive c) (lastSentId c) (lastReceivedId c)
    (reconnectCount c) (mayReconnect c) (handshakeComplete c)
    (messageListeners c) (openListeners c) (closeListeners c)
    (extraHandshakeData c) (unsentQueue c) (hanauSessionID c)
    (_handshakeTimeout c) (pingInterval c) (timers c) v (trace c).
Definition set_trace (v : list Effect) (c : HanauClient) : HanauClient :=
  mkClient (ws c) (sockets c) (alive c) (lastSentId c) (lastReceivedId c)
    (reconnectCount c) (mayReconnect c) (handshakeComplete c)
    (messageListeners c) (openListeners c) (closeListeners c)
    (extraHandshakeData c) (unsentQueue c) (hanauSessionID c)
    (_handshakeTimeout c) (pingInterval c) (timers c) (nextTimer c) v.

Definition emit (es : list Effect) (c : HanauClient) : HanauClient :=
  set_trace (trace c ++ es) c.

(** [setTimeout] / [setInterval]: the handle returned and the new state. *)
Definition set_timer (t : Timer) (ms : Z) (c : HanauClient)
  : nat * HanauClient :=
  let h := nextTimer c in
  (h, emit [SetTimer t ms]
        (set_nextTimer (S h) (set_timers (timers c ++ [(h, t)]) c))).

(** [clearTimeout] / [clearInterval]; clearing [undefined] does nothing. *)
Definition clear_timer (h : option nat) (c : HanauClient) : HanauClient :=
  match h with
  | Some h => set_timers (JsMap.delete h (timers c)) c
  | None => c
  end.

(** [this.ws] when it is set and its [readyState] is [OPEN]. *)
Definition open_ws (c : HanauClient) : option nat :=
  match ws c with
  | Some k =>
      match sockets c !! k with
      | Some OPEN => Some k
      | _ => None
      end
  | None => None
  end.

(** [send(command, data)]: the id is taken before the socket is looked at. *)
Definition send (cmd : Command) (d : Data) (c : HanauClient) : HanauClient :=
  let c := set_lastSentId (lastSentId c + 1) c in
  let packet := mkPacket (lastSentId c) cmd d in
  match open_ws c with
  | None => set_unsentQueue (unsentQueue c ++ [packet]) c
  | Some k => emit [WsSend k packet] c
  end.

(** [open(extraHandshakeData)]: a fresh socket, still connecting. *)
Definition open (extra : option Extra) (c : HanauClient) : HanauClient :=
  let c := match extra with
           | Some e => set_extraHandshakeData e c
           | None => c
           end in
  let k := length (sockets c) in
  emit [WsNew k] (set_ws (Some k) (set_sockets (sockets c ++ [CONNECTING]) c)).

(** [_reconnect()]. *)
Definition _reconnect (c : HanauClient) : HanauClient :=
  if negb (mayReconnect c) then c
  else if 5 <? reconnectCount c then set_mayReconnect false c
  else
    let c := set_reconnectCount (reconnectCount c + 1) c in
    (set_timer TReconnect (1000 * reconnectCount c) c).2.

Definition _startPing (c : HanauClient) : HanauClient :=
  let c := clear_timer (pingInterval c) c in
  let '(h, c) := set_timer TPing 5000 c in
  set_pingInterval (Some h) c.

Definition _stopPing (c : HanauClient) : HanauClient :=
  match pingInterval c with
  | Some h => set_pingInterval None (clear_timer (Some h) c)
  | None => c
  end.

(** [{ sessionId, lastReceivedId, ...this.extraHandshakeData }]: the spread
    comes last, so a key of the extra data replaces the field of the same
    name. *)
Definition handshakePayload (c : HanauClient) : Data :=
  let extra := extraHandshakeData c in
  DHandshake (default (Some (hanauSessionID c)) (ex_sessionId extra))
             (default (Some (lastReceivedId c)) (ex_lastReceivedId extra))
             (ex_rest extra).

(** [this.ws.onopen]. *)
Definition onopen (c : HanauClient) : HanauClient :=
  let c := set_alive true c in
  let c := set_reconnectCount 0 c in
  let c := emit (map CbOpen (openListeners c)) c in
  let payload := handshakePayload c in
  let c := set_handshakeComplete false c in
  let c := send (CStr "handshake") payload c in
  let c := _startPing c in
  let '(h, c) := set_timer THandshake 3000 c in
  set_handshakeTimeout (Some h) c.

(** The listener the constructor registers for [handshake_ack].  The flag
    tells whether it returned; a [send] on a socket that is still connecting
    (or on no socket) throws, which leaves the queue as it was. *)
Definition handshake_ack (c : HanauClient) : HanauClient * bool :=
  let c := set_handshakeComplete true c in
  let c := clear_timer (_handshakeTimeout c) c in
  match unsentQueue c with
  | [] => (set_unsentQueue [] c, true)
  | queue =>
      match ws c with
      | Some k =>
          match sockets c !! k with
          | Some CONNECTING | None => (c, false)
          | Some _ => (set_unsentQueue [] (emit (map (WsSend k) queue) c), true)
          end
      | None => (c, false)
      end
  end.

(** [listeners.forEach((listener) => listener(msg.data))]; a listener that
    throws ends the loop. *)
Fixpoint call_listeners (ls : list Listener) (d : Data) (c : HanauClient)
  : HanauClient :=
  match ls with
  | [] => c
  | LApp fn :: rest => call_listeners rest d (emit [CbMessage fn d] c)
  | LHandshakeAck :: rest =>
      let '(c, returned) := handshake_ack c in
      if returned then call_listeners rest d c else c
  end.

(** Whether [this.messageListeners[key]], for a [key] that is not an own
    property, is a truthy value found on the prototype chain.  The chain is
    [Object.prototype], preceded, once [off("__proto__")] has installed an
    array as prototype, by that array (its indices, and its [length] unless
    it is zero) and [Array.prototype].  None of these values is an array of
    listeners, and none has a [push], [filter] or [forEach] member. *)
Definition inherited (key : string) (m : list (string * list Listener))
  : bool :=
  bool_decide (key ∈ object_prototype_keys)
  || match JsMap.get "__proto__" m with
     | Some proto =>
         bool_decide (key ∈ array_prototype_keys)
         || bool_decide (key ∈ index_keys (length proto))
         || (bool_decide (key = "length") && negb (bool_decide (proto = [])))
     | None => false
     end.

(** The second statement of [_handleMessage].  Where the key holds no array
    of listeners the state stays as it is, for one of two reasons: the value
    is [undefined] or falsy and the statement is skipped, or it is an
    inherited value, on which [forEach] is undefined, so that the call
    throws before any listener runs and the [catch] of [onmessage] ends the
    handler. *)
Definition dispatch (msg : Packet) (c : HanauClient) : HanauClient :=
  if command_truthy (command msg) then
    let key := command_key (command msg) in
    match JsMap.get key (messageListeners c) with
    | Some ls => call_listeners ls (data msg) (emit [Dispatch msg] c)
    | None => if inherited key (messageListeners c) then c else c
    end
  else c.

(** [_handleMessage(msg)]. *)
Definition _handleMessage (msg : Packet) (c : HanauClient) : HanauClient :=
  if negb (id msg =? 0) then
    if id msg <=? lastReceivedId c then c
    else dispatch msg (set_lastReceivedId (id msg) c)
  else dispatch msg c.

(** [this.ws.onmessage]. *)
Definition onmessage (raw : Raw) (c : HanauClient) : HanauClient :=
  match raw with
  | RawInvalid => c
  | RawMsg msg =>
      if decide (command msg = CStr "pong") then set_alive true c
      else _handleMessage msg c
  end.

(** [this.ws.onclose]. *)
Definition onclose (reason : string) (c : HanauClient) : HanauClient :=
  let c := set_alive false c in
  let r := if decide (reason = ""%string) then "connection closed"%string
           else reason in
  let c := emit (map (λ fn, CbClose fn r) (closeListeners c)) c in
  let c := _stopPing c in
  if mayReconnect c then _reconnect c else c.

(** [close()]. *)
Definition close (c : HanauClient) : HanauClient :=
  let c := set_mayReconnect false c in
  match ws c with
  | Some k =>
      let c := match sockets c !! k with
               | Some CLOSED | None => c
               | Some _ => set_sockets (<[k := CLOSING]> (sockets c)) c
               end in
      emit [WsClose k] c
  | None => c
  end.

(** [on(command, listener)].  Where the key holds an inherited value no
    array is created, [push] is undefined and the call throws: nothing is
    registered. *)
Definition on (cmd : Command) (l : Listener) (c : HanauClient) : HanauClient :=
  let key := command_key cmd in
  match JsMap.get key (messageListeners c) with
  | Some ls =>
      set_messageListeners (JsMap.set key (ls ++ [l]) (messageListeners c)) c
  | None =>
      if inherited key (messageListeners c) then c
      else set_messageListeners (JsMap.set key [l] (messageListeners c)) c
  end.

(** [off(command, listener)].  Where the key holds an inherited value,
    [off(command)] assigns a fresh empty array under it, and
    [off(command, listener)] throws because [filter] is undefined. *)
Definition off (cmd : Command) (l : option Listener) (c : HanauClient)
  : HanauClient :=
  let key := command_key cmd in
  match JsMap.get key (messageListeners c) with
  | None =>
      if inherited key (messageListeners c) then
        match l with
        | None => set_messageListeners (JsMap.set key [] (messageListeners c)) c
        | Some _ => c
        end
      else c
  | Some ls =>
      let ls' := match l with
                 | None => []
                 | Some l => filter (λ l', l' ≠ l) ls
                 end in
      set_messageListeners (JsMap.set key ls' (messageListeners c)) c
  end.

Definition onOpen (fn : nat) (c : HanauClient) : HanauClient :=
  set_openListeners (openListeners c ++ [fn]) c.

Definition onClose (fn : nat) (c : HanauClient) : HanauClient :=
  set_closeListeners (closeListeners c ++ [fn]) c.

(** [destroy()]. *)
Definition destroy (c : HanauClient) : HanauClient :=
  let c := close c in
  let c := _stopPing c in
  let c := set_messageListeners [] c in
  let c := set_openListeners [] c in
  let c := set_closeListeners [] c in
  set_unsentQueue [] c.

(** [new HanauClient(uri)]; [sid] is the random session id it draws. *)
Definition new_client (sid : string) : HanauClient :=
  on (CStr "handshake_ack") LHandshakeAck
     (mkClient None [] false 0 0 0 true false [] [] [] no_extra [] sid
               None None [] 0 []).

(** The callbacks behind the three kinds of timer. *)
Definition fire (t : Timer) (c : HanauClient) : HanauClient :=
  match t with
  | THandshake => if negb (handshakeComplete c) then _reconnect c else c
  | TPing =>
      if negb (alive c) then _reconnect c
      else send (CStr "ping") DNull (set_alive false c)
  | TReconnect => if negb (mayReconnect c) then c else open None c
  end.

(** *** The event loop *)

Inductive Event :=
| EvOpen (k : nat)
| EvMessage (k : nat) (raw : Raw)
| EvClose (k : nat) (reason : string)
| EvTimer (h : nat)
| CallOpen (extra : option Extra)
| CallClose
| CallSend (cmd : Command) (d : Data)
| CallOn (cmd : Command) (fn : nat)
| CallOff (cmd : Command) (fn : option nat)
| CallOnOpen (fn : nat)
| CallOnClose (fn : nat)
| CallDestroy.

(** Transport events reach the handlers of an existing socket only; the
    transport moves the socket's [readyState] before it calls them.  A
    timeout fires once, an interval stays armed. *)
Definition step (c : HanauClient) (e : Event) : HanauClient :=
  match e with
  | EvOpen k =>
      match sockets c !! k with
      | Some CONNECTING => onopen (set_sockets (<[k := OPEN]> (sockets c)) c)
      | _ => c
      end
  | EvMessage k raw =>
      match sockets c !! k with
      | Some OPEN | Some CLOSING => onmessage raw c
      | _ => c
      end
  | EvClose k reason =>
      match sockets c !! k with
      | Some CLOSED | None => c
      | Some _ => onclose reason (set_sockets (<[k := CLOSED]> (sockets c)) c)
      end
  | EvTimer h =>
      match JsMap.get h (timers c) with
      | Some TPing => fire TPing c
      | Some t => fire t (set_timers (JsMap.delete h (timers c)) c)
      | None => c
      end
  | CallOpen extra => open extra c
  | CallClose => close c
  | CallSend cmd d => send cmd d c
  | CallOn cmd fn => on cmd (LApp fn) c
  | CallOff cmd fn => off cmd (LApp <$> fn) c
  | CallOnOpen fn => onOpen fn c
  | CallOnClose fn => onClose fn c
  | CallDestroy => destroy c
  end.

Definition run (events : list Event) (c : HanauClient) : HanauClient :=
  foldl step c events.

(** The packets that reached the listener loop, and their non-zero ids. *)
Definition dispatched (t : list Effect) : list Packet :=
  omap (λ e, match e with Dispatch p => Some p | _ => None end) t.

Definition dispatched_ids (t : list Effect) : list Z :=
  filter (λ n, n ≠ 0) (id <$> dispatched t).

(** The delays of the reconnects scheduled so far. *)
Definition reconnect_delays (t : list Effect) : list Z :=
  omap (λ e, match e with SetTimer TReconnect ms => Some ms | _ => None end) t.

(** What the client has accepted so far is consistent: the non-zero ids
    that reached the listener loop did so in strictly increasing order, and
    [lastReceivedId] is at least each of them. *)
Definition rx_ok (c : HanauClient) : Prop :=
  StronglySorted Z.lt (dispatched_ids (trace c))
  ∧ Forall (λ n, n ≤ lastReceivedId c) (dispatched_ids (trace c)).

(** [c'] has accepted nothing beyond what [c] had. *)
Definition rx_same (c c' : HanauClient) : Prop :=
  lastReceivedId c' = lastReceivedId c
  ∧ dispatched (trace c') = dispatched (trace c).

(** [c'] permits reconnection as [c] did and has scheduled no reconnect
    that [c] had not. *)
Definition rc_same (c c' : HanauClient) : Prop :=
  mayReconnect c' = mayReconnect c
  ∧ reconnect_delays (trace c') = reconnect_delays (trace c).



(** A client whose connection is open and acknowledged. *)
Definition connected_client : HanauClient :=
  run [CallOpen None; EvOpen 0; EvMessage 0 (RawMsg (mkPacket 1 (CStr "handshake_ack") DNull))]
      (new_client "s").

(** The data the application listeners were called with, in order. *)
Definition delivered (t : list Effect) : list (nat * Data) :=
  omap (λ e, match e with CbMessage fn d => Some (fn, d) | _ => None end) t.

(** The client's side of a reconnect: it is acknowledged (id 1) and receives
    a first packet (id 2) on its first socket, loses the socket, reconnects
    after the backoff delay, and on the new socket the server's
    acknowledgement and next packet arrive, stamped 1 and 2 again. *)
Definition reconnecting_client : HanauClient :=
  run [CallOn (CStr "news") 9;
       CallOpen None; EvOpen 0;
       EvMessage 0 (RawMsg (mkPacket 1 (CStr "handshake_ack") DNull));
       EvMessage 0 (RawMsg (mkPacket 2 (CStr "news") (DValue "first")));
       EvClose 0 ""; EvTimer 2; EvOpen 1;
       EvMessage 1 (RawMsg (mkPacket 1 (CStr "handshake_ack") DNull));
       EvMessage 1 (RawMsg (mkPacket 2 (CStr "news") (DValue "second")))]
      (new_client "s").

(** Several [send] calls in a row. *)
Definition send_all (ps : list (Command * Data)) (c : HanauClient)
  : HanauClient :=
  foldl (λ c p, send p.1 p.2 c) c ps.

(** The packets a run of [send] calls makes when the counter stands at [n]:
    consecutive ids from [n + 1], in call order. *)
Fixpoint stamp (n : Z) (ps : list (Command * Data)) : list Packet :=
  match ps with
  | [] => []
  | p :: ps => mkPacket (n + 1) p.1 p.2 :: stamp (n + 1) ps
  end.

(** The packets handed to sockets, in order. *)
Definition transmitted (t : list Effect) : list Packet :=
  omap (λ e, match e with WsSend _ p => Some p | _ => None end) t.

(** [c'] has the identity and the queue of [c] and has transmitted nothing
    that [c] had not. *)
Definition tx_same (c c' : HanauClient) : Prop :=
  hanauSessionID c' = hanauSessionID c
  ∧ extraHandshakeData c' = extraHandshakeData c
  ∧ unsentQueue c' = unsentQueue c
  ∧ transmitted (trace c') = transmitted (trace c).

(** If [p] is a handshake, it presents session id [sid]. *)
Definition presents (sid : string) (p : Packet) : Prop :=
  command p = CStr "handshake" →
  ∃ lastReceivedId rest, data p = DHandshake (Some sid) lastReceivedId rest.

(** An event by which the application leaves the handshake to the client:
    it neither passes extra handshake data that has a [sessionId] key nor
    sends a [handshake] command of its own. *)
Definition keeps_identity (e : Event) : Prop :=
  match e with
  | CallOpen (Some extra) => ex_sessionId extra = None
  | CallSend cmd _ => cmd ≠ CStr "handshake"
  | _ => True
  end.

(** Every handshake of [c], sent or still queued, presents [sid], and so
    will the next one. *)
Definition identity_ok (sid : string) (c : HanauClient) : Prop :=
  hanauSessionID c = sid
  ∧ ex_sessionId (extraHandshakeData c) = None
  ∧ Forall (presents sid) (unsentQueue c)
  ∧ Forall (presents sid) (transmitted (trace c)).

End Client.

(** * Properties *)

(** ** Insertion-ordered maps *)

Section JsMapFacts.
Context {K V : Type} `{EqDecision K}.
Implicit Types (m : list (K * V)) (k : K) (v : V).

Lemma get_delete_eq k m : JsMap.get k (JsMap.delete k m) = None.
Proof.
  induction m as [|[k' v'] m IH]; simpl; [done|].
  destruct (decide (k = k')) as [->|Hne]; [done|].
  simpl. by rewrite decide_False.
Qed.

Lemma get_delete_ne k k' m :
  k ≠ k' → JsMap.get k (JsMap.delete k' m) = JsMap.get k m.
Proof.
  intros Hne. induction m as [|[k0 v0] m IH]; simpl; [done|].
  destruct (decide (k' = k0)) as [->|]; simpl.
  - by rewrite decide_False.
  - by rewrite IH.
Qed.

Lemma get_set_eq k v m : JsMap.get k (JsMap.set k v m) = Some v.
Proof.
  induction m as [|[k' v'] m IH]; simpl.
  - by rewrite decide_True.
  - destruct (decide (k = k')) as [->|Hne]; simpl.
    + by rewrite decide_True.
    + by rewrite decide_False.
Qed.

Lemma get_set_ne k k' v m :
  k ≠ k' → JsMap.get k (JsMap.set k' v m) = JsMap.get k m.
Proof.
  intros Hne. induction m as [|[k0 v0] m IH]; simpl.
  - by rewrite decide_False.
  - destruct (decide (k' = k0)) as [->|]; simpl.
    + by rewrite !decide_False.
    + by rewrite IH.
Qed.

Lemma size_set k v m :
  (JsMap.size (JsMap.set k v m) ≤ S (JsMap.size m))%nat.
Proof.
  unfold JsMap.size. induction m as [|[k' v'] m IH]; simpl; [lia|].
  destruct (decide (k = k')); simpl; lia.
Qed.

Lemma size_delete k m : (JsMap.size (JsMap.delete k m) ≤ JsMap.size m)%nat.
Proof.
  unfold JsMap.size. induction m as [|[k' v'] m IH]; simpl; [lia|].
  destruct (decide (k = k')); simpl; lia.
Qed.

Lemma size_delete_elem k m :
  k ∈ JsMap.keys m → (JsMap.size (JsMap.delete k m) < JsMap.size m)%nat.
Proof.
  unfold JsMap.size, JsMap.keys.
  induction m as [|[k' v'] m IH]; simpl; intros Hin.
  - by apply elem_of_nil in Hin.
  - destruct (decide (k = k')) as [->|Hne].
    + pose proof (size_delete k' m) as Hle. unfold JsMap.size in Hle. lia.
    + apply elem_of_cons in Hin as [?|Hin]; [done|].
      simpl. specialize (IH Hin). lia.
Qed.

Lemma Forall_set (P : K * V → Prop) k v m :
  P (k, v) → Forall P m → Forall P (JsMap.set k v m).
Proof.
  intros Hp. induction 1 as [|[k' v'] m Hx Hm IH]; simpl.
  - by constructor.
  - destruct (decide (k = k')); constructor; auto.
Qed.

Lemma Forall_get (P : K * V → Prop) k v m :
  Forall P m → JsMap.get k m = Some v → P (k, v).
Proof.
  induction 1 as [|[k' v'] m Hx Hm IH]; simpl; [done|].
  destruct (decide (k = k')) as [->|]; [|done].
  by intros [= ->].
Qed.
Lemma set_set k v v' m : JsMap.set k v (JsMap.set k v' m) = JsMap.set k v m.
Proof.
  induction m as [|[k' v0] m IH]; simpl.
  - by rewrite decide_True.
  - destruct (decide (k = k')) as [->|Hne]; simpl.
    + by rewrite decide_True.
    + by rewrite decide_False, IH.
Qed.

Lemma keys_set_elem k k' v m :
  k' ∈ JsMap.keys (JsMap.set k v m) ↔ k' = k ∨ k' ∈ JsMap.keys m.
Proof.
  unfold JsMap.keys. induction m as [|[k0 v0] m IH]; simpl.
  - rewrite list_elem_of_singleton, elem_of_nil. tauto.
  - destruct (decide (k = k0)) as [->|Hne]; simpl.
    + rewrite !elem_of_cons. tauto.
    + rewrite !elem_of_cons, IH. tauto.
Qed.

Lemma keys_delete_elem k k' m :
  k' ∈ JsMap.keys (JsMap.delete k m) ↔ k' ≠ k ∧ k' ∈ JsMap.keys m.
Proof.
  unfold JsMap.keys. induction m as [|[k0 v0] m IH]; simpl.
  - rewrite elem_of_nil. tauto.
  - destruct (decide (k = k0)) as [->|Hne]; simpl.
    + rewrite elem_of_cons, IH. tauto.
    + rewrite !elem_of_cons, IH.
      split; [intros [->|[??]]; auto | intros [? [->|?]]; auto].
Qed.

Lemma NoDup_keys_set k v m :
  NoDup (JsMap.keys m) → NoDup (JsMap.keys (JsMap.set k v m)).
Proof.
  unfold JsMap.keys. induction m as [|[k0 v0] m IH]; simpl; intros Hnd.
  - apply NoDup_singleton.
  - apply NoDup_cons in Hnd as [Hni Hnd].
    destruct (decide (k = k0)) as [->|Hne]; simpl.
    + by apply NoDup_cons.
    + apply NoDup_cons. split; [|by apply IH].
      intros Hin. apply (keys_set_elem k k0 v m) in Hin as [?|?]; auto.
Qed.

Lemma NoDup_keys_delete k m :
  NoDup (JsMap.keys m) → NoDup (JsMap.keys (JsMap.delete k m)).
Proof.
  unfold JsMap.keys. induction m as [|[k0 v0] m IH]; simpl; intros Hnd.
  - constructor.
  - apply NoDup_cons in Hnd as [Hni Hnd].
    destruct (decide (k = k0)) as [->|Hne]; simpl; [by apply IH|].
    apply NoDup_cons. split; [|by apply IH].
    intros Hin. by apply (keys_delete_elem k k0 m) in Hin as [_ ?].
Qed.

Lemma delete_not_elem k m : k ∉ JsMap.keys m → JsMap.delete k m = m.
Proof.
  unfold JsMap.keys. induction m as [|[k0 v0] m IH]; simpl; [done|].
  intros Hni. apply not_elem_of_cons in Hni as [Hne Hni].
  rewrite decide_False by done. by rewrite IH.
Qed.

Lemma size_delete_NoDup k m :
  NoDup (JsMap.keys m) → k ∈ JsMap.keys m →
  S (JsMap.size (JsMap.delete k m)) = JsMap.size m.
Proof.
  unfold JsMap.keys, JsMap.size.
  induction m as [|[k0 v0] m IH]; simpl; intros Hnd Hin.
  - by apply elem_of_nil in Hin.
  - apply NoDup_cons in Hnd as [Hni Hnd].
    destruct (decide (k = k0)) as [->|Hne]; simpl.
    + by rewrite delete_not_elem.
    + apply elem_of_cons in Hin as [?|Hin]; [done|]. by rewrite IH.
Qed.
End JsMapFacts.

(** [Math.min] of a non-empty list is one of its elements and a lower bound
    of all of them. *)
Lemma math_min_spec (xs : list Z) (n : Z) :
  math_min xs = Some n → n ∈ xs ∧ Forall (λ x, n ≤ x) xs.
Proof.
  destruct xs as [|x r]; simpl; [done|]. intros [= <-].
  induction r as [|y r [IHin IHle]]; simpl.
  - split; [apply list_elem_of_here | by constructor].
  - apply Forall_cons in IHle as [Hx Hr].
    destruct (Z.min_spec y (foldr Z.min x r)) as [[Hlt ->]|[Hge ->]].
    + split; [apply list_elem_of_further, list_elem_of_here|].
      constructor; [lia|]. constructor; [lia|].
      eapply Forall_impl; [exact Hr|]. simpl. lia.
    + split.
      * apply elem_of_cons in IHin as [->|Hin];
          [apply list_elem_of_here
          |by do 2 apply list_elem_of_further].
      * constructor; [done|]. constructor; [lia|done].
Qed.

Lemma math_min_is_Some (xs : list Z) : xs ≠ [] → is_Some (math_min xs).
Proof. destruct xs; [done|]. by eexists. Qed.

(** ** The server *)

Module ServerFacts.
Import Server.

Local Arguments bump : simpl never.

Lemma update_ws_sockets r f s w :
  sockets s !! r = Some w →
  sockets (update_ws r f s) = <[r := f w]> (sockets s).
Proof. intros Hw. unfold update_ws. by rewrite Hw. Qed.

Lemma update_ws_lookup r f s w :
  sockets s !! r = Some w → sockets (update_ws r f s) !! r = Some (f w).
Proof.
  intros Hw. rewrite (update_ws_sockets _ _ _ _ Hw).
  apply list_lookup_insert_eq. by eapply lookup_lt_Some.
Qed.

(** [update_ws] only touches the socket store. *)
Ltac update_ws_frame := intros; unfold update_ws; by case_match.

Lemma update_ws_clients r f s : clients (update_ws r f s) = clients s.
Proof. update_ws_frame. Qed.
Lemma update_ws_histories r f s :
  clientHistories (update_ws r f s) = clientHistories s.
Proof. update_ws_frame. Qed.
Lemma update_ws_disconnectionListeners r f s :
  disconnectionListeners (update_ws r f s) = disconnectionListeners s.
Proof. update_ws_frame. Qed.
Lemma update_ws_trace r f s : trace (update_ws r f s) = trace s.
Proof. update_ws_frame. Qed.

Lemma bump_lastSentId w : lastSentId (bump w) = lastSentId w + 1.
Proof.
  unfold bump. destruct (Z.eqb_spec (lastSentId w) 0) as [Hz|]; simpl; lia.
Qed.

Lemma bump_readyState w : readyState (bump w) = readyState w.
Proof. unfold bump. by destruct (lastSentId w =? 0). Qed.

Lemma send_without_open_connection_is_noop_aux sid cmd d s :
  (JsMap.get sid (clients s) = None
   ∨ ∃ r w, JsMap.get sid (clients s) = Some r
            ∧ sockets s !! r = Some w ∧ readyState w ≠ OPEN) →
  send sid cmd d s = s.
Proof.
  unfold send. intros [-> | (r & w & -> & -> & Hrs)]; [done|].
  by destruct (readyState w).
Qed.

(** C10.  A send to a session that has no bound connection, or whose bound
    connection is not in the OPEN state, returns the server exactly as it
    was: nothing is handed to a socket, no history entry is written, no id is
    taken from the connection's counter and the registry is untouched. *)
Theorem send_without_open_connection_is_noop
    (sid : string) (cmd : Command) (d : Data) (s : HanauServer) :
  (JsMap.get sid (clients s) = None
   ∨ ∃ r w, JsMap.get sid (clients s) = Some r
            ∧ sockets s !! r = Some w ∧ readyState w ≠ OPEN) →
  send sid cmd d s = s.
Proof.
  intros Hguard. unfold send.
  destruct Hguard as [Hnone | (r & w & Hr & Hw & Hrs)].
  - by rewrite Hnone.
  - rewrite Hr, Hw. destruct (readyState w) eqn:Hstate; simpl; congruence.
Qed.

Lemma send_without_open_connection_is_noop_witness :
  let s := run [EvConnection; EvMessage 0 (handshake_msg 1 "s" 0);
                EvPeerClosing 0] new_server in
  JsMap.get "s" (clients s) = Some 0%nat
  ∧ send "s" (CStr "news") DNull s = s.
Proof.
  split; [reflexivity|].
  apply send_without_open_connection_is_noop.
  right. exists 0%nat, (mkWs (Some "s"%string) true 1 CLOSING 0).
  split; [reflexivity|]. split; [reflexivity|]. discriminate.
Defined.

(** C8, amended.  When the connection bound to the session is OPEN and has
    more than 5,000,000 unsent bytes buffered, a send terminates it, unbinds
    the session, tells every disconnection listener, and drops the packet:
    nothing is handed to the socket and the histories are unchanged. *)
Theorem send_over_backpressure_cuts_connection
    (sid : string) (cmd : Command) (d : Data) (s : HanauServer)
    (r : nat) (w : HanauWebSocket) :
  JsMap.get sid (clients s) = Some r →
  sockets s !! r = Some w →
  readyState w = OPEN →
  5000000 < bufferedAmount w →
  backpressure_cut sid r s (send sid cmd d s).
Proof.
  intros Hr Hw Hopen Hbuf. unfold send. rewrite Hr, Hw, Hopen. simpl.
  rewrite (proj2 (Z.ltb_lt _ _) Hbuf).
  pose proof (update_ws_lookup r bump s w Hw) as Hb.
  pose proof (update_ws_lookup r closing _ _ Hb) as Hc.
  unfold backpressure_cut, notify_disconnection, ws_terminate, emit; simpl.
  rewrite !update_ws_disconnectionListeners, !update_ws_trace,
    !update_ws_histories, <- app_assoc.
  repeat split.
  - exists (closing (bump w)). split; [exact Hc|].
    unfold closing. by rewrite bump_readyState, Hopen.
  - apply get_delete_eq.
Qed.

Lemma send_over_backpressure_cuts_connection_witness :
  let s := run [CallOnDisconnection 7; EvConnection;
                EvMessage 0 (handshake_msg 1 "s" 0);
                EvBuffered 0 6000000] new_server in
  backpressure_cut "s" 0 s (send "s" (CStr "news") DNull s).
Proof.
  apply (send_over_backpressure_cuts_connection "s" (CStr "news") DNull _ 0
           (mkWs (Some "s"%string) true 1 OPEN 6000000));
    [reflexivity | reflexivity | reflexivity | reflexivity].
Defined.

(** C8 as stated fails when the bound connection is already closing: the
    guard on the ready state returns first, so the connection is not
    terminated, stays in the registry, and nobody is notified. *)
Lemma send_over_backpressure_on_closing_socket :
  let s := run [CallOnDisconnection 7; EvConnection;
                EvMessage 0 (handshake_msg 1 "s" 0);
                EvBuffered 0 6000000; EvPeerClosing 0] new_server in
  JsMap.get "s" (clients s) = Some 0%nat
  ∧ (bufferedAmount <$> sockets s !! 0%nat) = Some 6000000
  ∧ ¬ backpressure_cut "s" 0 s (send "s" (CStr "news") DNull s).
Proof.
  split; [reflexivity|]. split; [reflexivity|].
  intros (Htrace & _). vm_compute in Htrace. discriminate.
Qed.

(** *** The history limit *)

Lemma history_record_ok packet h :
  history_ok h → history_ok (history_record packet h).
Proof.
  intros [Hsize Hnd]. unfold history_record.
  pose proof (size_set (id packet) packet h) as Hs.
  pose proof (NoDup_keys_set (id packet) packet h Hnd) as Hnd'.
  destruct (Nat.ltb_spec 100 (JsMap.size (JsMap.set (id packet) packet h)))
    as [Hover|Hfit]; [|split; [lia|done]].
  destruct (math_min (JsMap.keys (JsMap.set (id packet) packet h)))
    as [oldest|] eqn:Hmin.
  - apply math_min_spec in Hmin as [Hin _]. split.
    + apply size_delete_elem in Hin. lia.
    + by apply NoDup_keys_delete.
  - destruct (JsMap.set (id packet) packet h); [simpl in Hover; lia|done].
Qed.

(** What the limit does: below it the inserted history is kept, above it the
    entry with the smallest id, and only that entry, is removed. *)
Lemma history_record_spec packet h :
  let inserted := JsMap.set (id packet) packet h in
  if decide (JsMap.size inserted ≤ 100)%nat
  then history_record packet h = inserted
  else ∃ oldest,
      oldest ∈ JsMap.keys inserted
      ∧ (∀ k, k ∈ JsMap.keys inserted → oldest ≤ k)
      ∧ history_record packet h = JsMap.delete oldest inserted.
Proof.
  intros inserted. unfold history_record. fold inserted.
  destruct (decide (JsMap.size inserted ≤ 100)%nat) as [Hfit|Hover].
  - by rewrite (proj2 (Nat.ltb_ge _ _) Hfit).
  - rewrite (proj2 (Nat.ltb_lt 100 _)) by lia.
    destruct (math_min_is_Some (JsMap.keys inserted)) as [oldest Hmin].
    { destruct inserted; [simpl in Hover; lia|done]. }
    rewrite Hmin. apply math_min_spec in Hmin as [Hin Hle].
    exists oldest. split; [done|]. split; [|done].
    intros k Hk. by eapply (proj1 (Forall_forall _ _) Hle).
Qed.

Ltac frame_histories :=
  intros;
  unfold sweep_client, broadcast_client, on_close, on_pong, on_connection,
    ws_close, ws_terminate, ws_ping, _send, notify_disconnection,
    notify_connection, emit;
  repeat case_match; simpl; rewrite ?update_ws_histories; simpl;
  rewrite ?update_ws_histories; done.

Lemma clients_forEach_histories f todo s :
  (∀ r s, clientHistories (f r s) = clientHistories s) →
  clientHistories (clients_forEach f todo s) = clientHistories s.
Proof.
  intros Hf. revert s.
  induction todo as [|[k r] todo IH]; intros s; simpl; [done|].
  case_decide; rewrite IH; [apply Hf | done].
Qed.

Lemma replay_histories rp s : clientHistories (replay rp s) = clientHistories s.
Proof.
  unfold replay. destruct (JsMap.get _ _) as [history|]; [|done].
  revert s. induction history as [|e history IH]; intros s0; simpl; [done|].
  rewrite IH. by case_match.
Qed.

Lemma sweep_client_histories r s :
  clientHistories (sweep_client r s) = clientHistories s.
Proof. frame_histories. Qed.

Lemma broadcast_client_histories cmd d r s :
  clientHistories (broadcast_client cmd d r s) = clientHistories s.
Proof. frame_histories. Qed.

Lemma ws_close_histories r code reason s :
  clientHistories (ws_close r code reason s) = clientHistories s.
Proof. frame_histories. Qed.

Lemma on_close_histories r s :
  clientHistories (on_close r s) = clientHistories s.
Proof. frame_histories. Qed.

Lemma histories_ok_add sid s :
  histories_ok s →
  Forall (λ e, history_ok e.2)
    (if JsMap.has sid (clientHistories s) then clientHistories s
     else JsMap.set sid [] (clientHistories s)).
Proof.
  intros Hok. case_match; [done|]. apply Forall_set; [|done].
  split; [simpl; lia | constructor].
Qed.

Lemma accept_handshake_histories_ok r sid l s :
  histories_ok s → histories_ok (accept_handshake r sid l s).
Proof.
  intros Hok. unfold histories_ok, accept_handshake, notify_connection, emit,
    _send. simpl.
  pose proof (histories_ok_add sid s Hok) as Hadd.
  repeat case_match; simpl;
    rewrite ?update_ws_histories, ?ws_close_histories in *; simpl;
    rewrite ?update_ws_histories, ?ws_close_histories in *; simpl;
    try done.
  all: apply Forall_set; [split; [simpl; lia | constructor] | done].
Qed.

Lemma send_histories sid cmd d s r w :
  JsMap.get sid (clients s) = Some r →
  sockets s !! r = Some w →
  readyState w = OPEN →
  bufferedAmount w ≤ 5000000 →
  clientHistories (send sid cmd d s)
  = JsMap.set sid
      (history_record (mkPacket (lastSentId w + 1) cmd d) (history_of sid s))
      (clientHistories s).
Proof.
  intros Hr Hw Hopen Hbuf. unfold send, history_of.
  rewrite Hr, Hw, Hopen. cbn [negb is_open]. cbv zeta.
  rewrite (proj2 (Z.ltb_ge _ _) Hbuf), bump_lastSentId.
  unfold JsMap.has. rewrite update_ws_histories.
  destruct (JsMap.get sid (clientHistories s)) as [history|] eqn:Hh; simpl.
  - by rewrite update_ws_histories, Hh.
  - rewrite get_set_eq. simpl. by rewrite set_set.
Qed.

Lemma history_of_ok sid s : histories_ok s → history_ok (history_of sid s).
Proof.
  intros Hok. unfold history_of.
  destruct (JsMap.get sid (clientHistories s)) as [h|] eqn:Hh; simpl.
  - apply (Forall_get _ _ _ _ Hok Hh).
  - split; [simpl; lia | constructor].
Qed.

Lemma send_histories_ok sid cmd d s :
  histories_ok s → histories_ok (send sid cmd d s).
Proof.
  intros Hok.
  destruct (JsMap.get sid (clients s)) as [r|] eqn:Hr;
    [|by unfold send; rewrite Hr].
  destruct (sockets s !! r) as [w|] eqn:Hw;
    [|by unfold send; rewrite Hr, Hw].
  destruct (decide (readyState w = OPEN)) as [Hopen|Hno].
  2:{ rewrite send_without_open_connection_is_noop_aux; [done|].
      right. by exists r, w. }
  destruct (Z_le_gt_dec (bufferedAmount w) 5000000) as [Hbuf|Hbuf].
  - unfold histories_ok. rewrite (send_histories _ _ _ _ _ _ Hr Hw Hopen Hbuf).
    apply Forall_set; [|done]. simpl.
    by apply history_record_ok, history_of_ok.
  - unfold histories_ok, send. rewrite Hr, Hw, Hopen. simpl.
    rewrite (proj2 (Z.ltb_lt _ _)) by lia.
    unfold notify_disconnection, ws_terminate, emit. simpl.
    by rewrite !update_ws_histories.
Qed.

Lemma step_histories_ok s e : histories_ok s → histories_ok (step s e).
Proof.
  intros Hok.
  assert (∀ s', clientHistories s' = clientHistories s → histories_ok s')
    as Hframe by (intros s' Heq; unfold histories_ok; by rewrite Heq).
  destruct e; cbn [step]; try exact Hok.
  - apply Hframe, update_ws_histories.
  - unfold on_message. repeat case_match; subst;
      try (by apply accept_handshake_histories_ok);
      try exact Hok; apply Hframe; frame_histories.
  - apply Hframe, on_close_histories.
  - apply Hframe, update_ws_histories.
  - apply Hframe, update_ws_histories.
  - case_match; [done|]. apply Hframe. by rewrite replay_histories.
  - case_match; [|done]. apply Hframe. unfold ping_sweep.
    apply clients_forEach_histories, sweep_client_histories.
  - by apply send_histories_ok.
  - apply Hframe. unfold broadcast.
    apply clients_forEach_histories, broadcast_client_histories.
  - apply Hframe. unfold close.
    cbn [clientHistories set_clients].
    rewrite clients_forEach_histories; [done|].
    intros. apply ws_close_histories.
Qed.

Lemma run_histories_ok events s :
  histories_ok s → histories_ok (run events s).
Proof.
  revert s. induction events as [|e events IH]; intros s Hok; simpl; [done|].
  by apply IH, step_histories_ok.
Qed.

(** C3.  In every state the server can reach, whatever the events and calls
    that led there, a session's history holds at most 100 entries.  A send
    that gets as far as the history stores the packet under its id; if that
    makes 101 entries, exactly the entry with the smallest id is removed, and
    100 remain. *)
Theorem history_holds_at_most_100_entries
    (events : list Event) (sid : string) (cmd : Command) (d : Data) :
  let s := run events new_server in
  (JsMap.size (history_of sid s) ≤ 100)%nat
  ∧ ∀ r w,
      JsMap.get sid (clients s) = Some r →
      sockets s !! r = Some w →
      readyState w = OPEN →
      bufferedAmount w ≤ 5000000 →
      let packet := mkPacket (lastSentId w + 1) cmd d in
      let inserted := JsMap.set (id packet) packet (history_of sid s) in
      if decide (JsMap.size inserted ≤ 100)%nat
      then history_of sid (send sid cmd d s) = inserted
      else ∃ oldest,
          oldest ∈ JsMap.keys inserted
          ∧ (∀ k, k ∈ JsMap.keys inserted → oldest ≤ k)
          ∧ history_of sid (send sid cmd d s) = JsMap.delete oldest inserted
          ∧ JsMap.size (JsMap.delete oldest inserted) = 100%nat.
Proof.
  intros s.
  assert (histories_ok s) as Hok by (apply run_histories_ok; constructor).
  destruct (history_of_ok sid s Hok) as [Hsize Hnd]. split; [done|].
  intros r w Hr Hw Hopen Hbuf packet inserted.
  assert (history_of sid (send sid cmd d s)
          = history_record packet (history_of sid s)) as ->.
  { unfold history_of at 1.
    by rewrite (send_histories _ _ _ _ _ _ Hr Hw Hopen Hbuf), get_set_eq. }
  pose proof (history_record_spec packet (history_of sid s)) as Hspec.
  cbv zeta in Hspec. fold inserted in Hspec.
  destruct (decide (JsMap.size inserted ≤ 100)%nat) as [Hfit|Hover]; [done|].
  destruct Hspec as (oldest & Hin & Hle & Heq).
  exists oldest. repeat split; try done.
  pose proof (size_set (id packet) packet (history_of sid s)) as Hs.
  fold inserted in Hs.
  pose proof (size_delete_NoDup oldest inserted
                (NoDup_keys_set _ _ _ Hnd) Hin) as Hd.
  lia.
Qed.

Lemma history_holds_at_most_100_entries_witness :
  let s := run (session_with_sends "s" 100) new_server in
  let packet := mkPacket 102 (CStr "news") DNull in
  let inserted := JsMap.set 102 packet (history_of "s" s) in
  JsMap.keys (history_of "s" s) = seqZ 2 100
  ∧ ∃ oldest,
      oldest ∈ JsMap.keys inserted
      ∧ (∀ k, k ∈ JsMap.keys inserted → oldest ≤ k)
      ∧ history_of "s" (send "s" (CStr "news") DNull s)
        = JsMap.delete oldest inserted
      ∧ JsMap.size (JsMap.delete oldest inserted) = 100%nat.
Proof.
  intros s packet inserted. split; [by vm_compute|].
  pose proof (proj2 (history_holds_at_most_100_entries
                       (session_with_sends "s" 100) "s" (CStr "news") DNull)
                0%nat (mkWs (Some "s"%string) true 101 OPEN 0)) as Hsend.
  cbv zeta in Hsend. fold s in Hsend.
  specialize (Hsend ltac:(by vm_compute) ltac:(by vm_compute) eq_refl
                    ltac:(by vm_compute)).
  change (101 + 1) with 102 in Hsend. fold packet inserted in Hsend.
  destruct (decide (JsMap.size inserted ≤ 100)%nat) as [Hfit|_];
    [|exact Hsend].
  exfalso. vm_compute in Hfit. lia.
Defined.

(** *** Replay *)

(** The replay hands to the socket the retained entries whose id is above
    the client's [lastReceivedId], all of them and only them, in the order
    the history iterates. *)
Lemma replay_sends_entries_above rp s :
  trace (replay rp s)
  = trace s ++ map (λ e, WsSend (rp_extWs rp) e.2)
                   (filter (λ e, rp_lastReceivedId rp < e.1)
                           (history_of (rp_sessionId rp) s)).
Proof.
  unfold replay, history_of.
  destruct (JsMap.get _ _) as [history|]; simpl; [|by rewrite app_nil_r].
  revert s. induction history as [|e history IH]; intros s; simpl.
  - by rewrite app_nil_r.
  - rewrite IH, filter_cons.
    destruct (Z.ltb_spec (rp_lastReceivedId rp) e.1);
      [rewrite decide_True by done | rewrite decide_False by lia]; simpl.
    + by rewrite <- app_assoc.
    + done.
Qed.

(** When the history iterates in increasing id order, so does the replay. *)
Lemma replay_sorted_when_history_sorted rp s :
  StronglySorted Z.lt (JsMap.keys (history_of (rp_sessionId rp) s)) →
  StronglySorted Z.lt
    ((filter (λ e, rp_lastReceivedId rp < e.1)
             (history_of (rp_sessionId rp) s)).*1).
Proof.
  unfold JsMap.keys. generalize (history_of (rp_sessionId rp) s).
  induction l as [|e l IH]; simpl; intros Hs; [constructor|].
  apply StronglySorted_inv in Hs as [Hs Hall].
  rewrite filter_cons. case_decide; simpl; [|by apply IH].
  constructor; [by apply IH|].
  apply Forall_fmap, Forall_forall. intros x Hx.
  apply list_elem_of_filter in Hx as [_ Hx].
  rewrite Forall_fmap, Forall_forall in Hall. by apply Hall.
Qed.

(** C4.  The replay follows the order in which ids entered the history, and
    that order is not increasing here: the second connection started its
    counter afresh, so the packet stamped 2 on it was stored after the packet
    stamped 3 on the first connection, and the replay to the third connection
    sends id 3 before id 2. *)
Theorem replay_out_of_id_order :
  let s := run lossy_scenario new_server in
  JsMap.keys (history_of "s" s) = [3; 2]
  ∧ immediates s = [mkReplay "s" 1 2]
  ∧ sent_packets (trace (step s EvImmediate))
    = sent_packets (trace s)
      ++ [(2%nat, mkPacket 3 news DNull); (2%nat, mkPacket 2 news DNull)].
Proof. by vm_compute. Qed.

(** *** Sequence ids *)

(** C1.  The id counter lives on the connection and starts at zero on every
    new connection, so after a reconnect the ids sent to the session start
    again from 1: the session is sent 1, 2, and then 1, 2 once more. *)
Theorem server_ids_restart_on_reconnect :
  let s := run reconnect_scenario new_server in
  ids_sent_to "s" s = [1; 2; 1; 2]
  ∧ ¬ StronglySorted Z.lt (ids_sent_to "s" s).
Proof.
  intros s.
  assert (ids_sent_to "s" s = [1; 2; 1; 2]) as -> by by vm_compute.
  split; [done|]. intros Hs.
  apply StronglySorted_inv in Hs as [Hs _].
  apply StronglySorted_inv in Hs as [_ Hall].
  apply Forall_inv in Hall. lia.
Qed.

(** *** Duplicate sessions *)

(** An accepted handshake leaves the new connection bound to the session. *)
Lemma accept_handshake_binds r sid l s :
  JsMap.get sid (clients (accept_handshake r sid l s)) = Some r.
Proof.
  unfold accept_handshake, notify_connection, _send, emit. simpl.
  repeat case_match; simpl; rewrite ?update_ws_clients; simpl;
    rewrite ?update_ws_clients; by rewrite get_set_eq.
Qed.

(** The close handler unbinds the session of the closing socket whichever
    connection the registry holds for it. *)
Lemma on_close_unbinds r w sid s :
  sockets s !! r = Some w → truthy_sid (sessionId w) = Some sid →
  JsMap.get sid (clients (on_close r s)) = None.
Proof.
  intros Hw Hsid. unfold on_close.
  rewrite (update_ws_lookup _ _ _ _ Hw). simpl. rewrite Hsid.
  unfold notify_disconnection, emit. simpl. apply get_delete_eq.
Qed.

(** C2.  The old connection is closed with code 4002 before the new one is
    bound, and right after the handshake the session is bound to the new
    connection.  But the close handler of the old connection deletes the
    registry entry of its session id without looking at which connection the
    entry holds: once the old connection's close event is processed the
    session is bound to no connection at all, although the new connection is
    open, and the disconnection listeners are told the session is gone. *)
Theorem close_of_evicted_connection_unbinds_session :
  let s := run duplicate_session_scenario new_server in
  let s' := step s (EvClose 0) in
  trace s = [WsSend 0 (ack 1);
             WsClose 0 (Some 4002) "duplicate session"; WsSend 1 (ack 1)]
  ∧ JsMap.get "s" (clients s) = Some 1%nat
  ∧ JsMap.get "s" (clients s') = None
  ∧ sockets s' !! 1%nat = Some (mkWs (Some "s"%string) true 1 OPEN 0)
  ∧ disconnections (trace s') = [(7%nat, "s"%string)].
Proof. by vm_compute. Qed.

(** *** Recording before transmission *)

(** [broadcast] never writes to a history. *)
Lemma broadcast_histories cmd d s :
  clientHistories (broadcast cmd d s) = clientHistories s.
Proof.
  unfold broadcast.
  apply clients_forEach_histories, broadcast_client_histories.
Qed.

(** C5.  [send] stores the packet in the session's history before it hands
    it to the socket; [broadcast] hands a packet with a fresh id to the same
    socket and stores nothing. *)
Theorem broadcast_is_not_recorded :
  let s := run bound_scenario new_server in
  (history_of "s" (send "s" news DNull s) = [(2, mkPacket 2 news DNull)]
   ∧ sent_packets (trace (send "s" news DNull s))
     = sent_packets (trace s) ++ [(0%nat, mkPacket 2 news DNull)])
  ∧ (history_of "s" (broadcast news DNull s) = []
     ∧ sent_packets (trace (broadcast news DNull s))
       = sent_packets (trace s) ++ [(0%nat, mkPacket 2 news DNull)]).
Proof. by vm_compute. Qed.

(** *** Liveness sweep *)

(** A visit of the sweep to a bound connection whose flag is clear
    terminates it, unbinds its session, and calls each disconnection
    listener once. *)
Lemma sweep_client_dead r w sid s :
  sockets s !! r = Some w → isAlive w = false →
  truthy_sid (sessionId w) = Some sid →
  trace (sweep_client r s)
  = trace s ++ (WsTerminate r
                  :: map (λ fn, CbDisconnection fn sid) (disconnectionListeners s))
  ∧ JsMap.get sid (clients (sweep_client r s)) = None.
Proof.
  intros Hw Halive Hsid. unfold sweep_client. rewrite Hw, Halive, Hsid. simpl.
  unfold notify_disconnection, ws_terminate, emit. simpl.
  rewrite update_ws_disconnectionListeners, update_ws_trace, <- app_assoc.
  split; [done|]. apply get_delete_eq.
Qed.

(** A visit to a connection whose flag is set clears the flag and pings. *)
Lemma sweep_client_alive r w s :
  sockets s !! r = Some w → isAlive w = true →
  trace (sweep_client r s) = trace s ++ [WsPing r]
  ∧ sockets (sweep_client r s) !! r = Some (set_isAlive false w)
  ∧ clients (sweep_client r s) = clients s.
Proof.
  intros Hw Halive. unfold sweep_client. rewrite Hw, Halive. simpl.
  unfold ws_ping, emit. simpl.
  rewrite update_ws_trace, update_ws_clients, (update_ws_lookup _ _ _ _ Hw).
  done.
Qed.

(** C9.  The sweep that finds the flag clear terminates the connection,
    unbinds the session and notifies the listeners; the close event of the
    terminated socket then runs the close handler, which notifies them again:
    one termination, two notifications. *)
Theorem liveness_timeout_notifies_twice :
  let s := run liveness_timeout_scenario new_server in
  trace s = [WsSend 0 (ack 1); WsPing 0; WsTerminate 0;
             CbDisconnection 7 "s"; CbDisconnection 7 "s"]
  ∧ disconnections (trace s) = [(7%nat, "s"%string); (7%nat, "s"%string)]
  ∧ JsMap.get "s" (clients s) = None.
Proof. by vm_compute. Qed.

End ServerFacts.

(** ** The client *)

Module ClientFacts.
Import Client.

(** *** Reconnection backoff *)

Lemma reconnect_delays_app t1 t2 :
  reconnect_delays (t1 ++ t2) = reconnect_delays t1 ++ reconnect_delays t2.
Proof. apply omap_app. Qed.

Lemma reconnect_delays_CbClose r fns :
  reconnect_delays (map (λ fn, CbClose fn r) fns) = [].
Proof. by induction fns. Qed.

Lemma _stopPing_frame c :
  trace (_stopPing c) = trace c
  ∧ mayReconnect (_stopPing c) = mayReconnect c
  ∧ reconnectCount (_stopPing c) = reconnectCount c.
Proof. unfold _stopPing. by case_match. Qed.

(** What [_reconnect] does in each of its three cases. *)
Lemma _reconnect_spec c :
  if mayReconnect c then
    if decide (reconnectCount c ≤ 5) then
      trace (_reconnect c)
      = trace c ++ [SetTimer TReconnect (1000 * (reconnectCount c + 1))]
      ∧ reconnectCount (_reconnect c) = reconnectCount c + 1
      ∧ mayReconnect (_reconnect c) = true
    else
      trace (_reconnect c) = trace c
      ∧ reconnectCount (_reconnect c) = reconnectCount c
      ∧ mayReconnect (_reconnect c) = false
  else _reconnect c = c.
Proof.
  unfold _reconnect. destruct (mayReconnect c) eqn:Hmay; simpl; [|done].
  case_decide as Hle.
  - rewrite (proj2 (Z.ltb_ge _ _) Hle). simpl. by rewrite Hmay.
  - rewrite (proj2 (Z.ltb_lt 5 _)) by lia. done.
Qed.

Lemma onclose_spec reason c :
  reconnect_delays (trace (onclose reason c))
  = reconnect_delays (trace c)
    ++ (if mayReconnect c && bool_decide (reconnectCount c ≤ 5)
        then [1000 * (reconnectCount c + 1)] else [])
  ∧ reconnectCount (onclose reason c)
    = (if mayReconnect c && bool_decide (reconnectCount c ≤ 5)
       then reconnectCount c + 1 else reconnectCount c)
  ∧ mayReconnect (onclose reason c)
    = mayReconnect c && bool_decide (reconnectCount c ≤ 5).
Proof.
  unfold onclose.
  set (c1 := emit _ (set_alive false c)).
  assert (reconnect_delays (trace c1) = reconnect_delays (trace c)) as Ht.
  { unfold c1, emit. simpl.
    by rewrite reconnect_delays_app, reconnect_delays_CbClose, app_nil_r. }
  assert (mayReconnect c1 = mayReconnect c) as Hm by done.
  assert (reconnectCount c1 = reconnectCount c) as Hc by done.
  destruct (_stopPing_frame c1) as (Ht2 & Hm2 & Hc2).
  pose proof (_reconnect_spec (_stopPing c1)) as Hr.
  rewrite Hm2, Hm, Hc2, Hc in *.
  destruct (mayReconnect c); simpl.
  - case_decide as Hle.
    + rewrite bool_decide_true by done.
      destruct Hr as (-> & -> & ->).
      by rewrite reconnect_delays_app, Ht2, Ht.
    + rewrite bool_decide_false by done.
      destruct Hr as (-> & -> & ->). by rewrite Ht2, Ht, app_nil_r.
  - by rewrite Ht2, Ht, app_nil_r.
Qed.



Lemma reconnect_delays_map (A : Type) (f : A → Effect) (l : list A) :
  (∀ x, match f x with SetTimer TReconnect _ => False | _ => True end) →
  reconnect_delays (map f l) = [].
Proof.
  intros Hf. induction l as [|x l IH]; simpl; [done|].
  specialize (Hf x). unfold reconnect_delays in *. simpl.
  destruct (f x) as [| | | | | | |[]]; simpl; done.
Qed.

Ltac reconnect_delays_tac :=
  rewrite ?reconnect_delays_app; simpl;
  rewrite ?reconnect_delays_map by (intros; exact I);
  rewrite ?app_nil_r.

Lemma rc_same_trans c1 c2 c3 : rc_same c1 c2 → rc_same c2 c3 → rc_same c1 c3.
Proof. intros [H1 H2] [H3 H4]. split; congruence. Qed.

Ltac rc_same_tac :=
  intros; unfold rc_same;
  unfold destroy, onopen, close, open, _startPing;
  unfold _stopPing, handshake_ack, send;
  unfold set_timer, clear_timer, emit; simpl;
  repeat case_match; simpl; (split; [done|]);
  reconnect_delays_tac; done.

Lemma rc_same_send cmd d c : rc_same c (send cmd d c).
Proof. rc_same_tac. Qed.

Lemma rc_same_open extra c : rc_same c (open extra c).
Proof. rc_same_tac. Qed.

Lemma rc_same_onopen c : rc_same c (onopen c).
Proof. rc_same_tac. Qed.

Lemma rc_same_handshake_ack c : rc_same c (handshake_ack c).1.
Proof. rc_same_tac. Qed.

(** The listeners neither schedule reconnects nor touch [mayReconnect]. *)
Lemma rc_same_call_listeners ls d c : rc_same c (call_listeners ls d c).
Proof.
  revert c. induction ls as [|[|fn] ls IH]; intros c; simpl; [done| |].
  - pose proof (rc_same_handshake_ack c) as Ha.
    destruct (handshake_ack c) as [c' returned]. simpl in Ha.
    destruct returned; [|done]. eapply rc_same_trans; [exact Ha|apply IH].
  - eapply rc_same_trans; [|apply IH]. rc_same_tac.
Qed.

Lemma rc_same_onmessage raw c : rc_same c (onmessage raw c).
Proof.
  unfold onmessage, _handleMessage, dispatch. repeat case_match; try done.
  all: eapply rc_same_trans; [|apply rc_same_call_listeners]; rc_same_tac.
Qed.

(** Once [mayReconnect] is clear the handlers that could reconnect do not. *)
Lemma _reconnect_gave_up c : mayReconnect c = false → _reconnect c = c.
Proof. intros Hm. unfold _reconnect. by rewrite Hm. Qed.

Lemma onclose_gave_up reason c :
  mayReconnect c = false →
  mayReconnect (onclose reason c) = false
  ∧ reconnect_delays (trace (onclose reason c)) = reconnect_delays (trace c).
Proof.
  intros Hm. destruct (onclose_spec reason c) as (-> & _ & ->).
  rewrite Hm. simpl. by rewrite app_nil_r.
Qed.

Lemma fire_gave_up t c :
  mayReconnect c = false →
  mayReconnect (fire t c) = false
  ∧ reconnect_delays (trace (fire t c)) = reconnect_delays (trace c).
Proof.
  intros Hm. destruct t; simpl; rewrite ?(_reconnect_gave_up c Hm), ?Hm;
    simpl; repeat case_match; try done.
  destruct (rc_same_send (CStr "ping") DNull (set_alive false c)) as [-> ->].
  done.
Qed.

(** Nothing sets [mayReconnect] again once it is cleared, and while it is
    clear no event and no call, [open] included, schedules a reconnect. *)
Lemma step_gave_up c e :
  mayReconnect c = false →
  mayReconnect (step c e) = false
  ∧ reconnect_delays (trace (step c e)) = reconnect_delays (trace c).
Proof.
  intros Hm.
  assert (∀ c', rc_same c c' →
            mayReconnect c' = false
            ∧ reconnect_delays (trace c') = reconnect_delays (trace c))
    as Hsame by (intros c' [-> ->]; done).
  destruct e; cbn [step].
  - repeat case_match; try done.
    apply Hsame, (rc_same_onopen (set_sockets _ c)).
  - repeat case_match; try done; apply Hsame, rc_same_onmessage.
  - repeat case_match; try done;
      apply (onclose_gave_up _ (set_sockets _ c)), Hm.
  - repeat case_match; try done;
      first [ apply (fire_gave_up _ (set_timers _ c)), Hm
            | apply fire_gave_up, Hm ].
  - apply Hsame, rc_same_open.
  - unfold close, emit. repeat case_match; simpl; (split; [done|]);
      by reconnect_delays_tac.
  - apply Hsame, rc_same_send.
  - unfold on. by repeat case_match.
  - unfold off. by repeat case_match.
  - done.
  - done.
  - unfold destroy, close, _stopPing, clear_timer, emit.
    repeat case_match; simpl; (split; [done|]); by reconnect_delays_tac.
Qed.

Lemma run_gave_up events c :
  mayReconnect c = false →
  mayReconnect (run events c) = false
  ∧ reconnect_delays (trace (run events c)) = reconnect_delays (trace c).
Proof.
  revert c. induction events as [|e events IH]; intros c Hm; simpl; [done|].
  destruct (step_gave_up c e Hm) as [Hm' Ht].
  destruct (IH _ Hm') as [-> ->]. by rewrite Ht.
Qed.





(** *** Duplicate suppression *)

Lemma rx_same_refl c : rx_same c c.
Proof. by split. Qed.

Lemma rx_same_trans c1 c2 c3 : rx_same c1 c2 → rx_same c2 c3 → rx_same c1 c3.
Proof. intros [H1 H2] [H3 H4]. split; congruence. Qed.

Lemma dispatched_app t1 t2 : dispatched (t1 ++ t2) = dispatched t1 ++ dispatched t2.
Proof. apply omap_app. Qed.

Lemma dispatched_map (A : Type) (f : A → Effect) (l : list A) :
  (∀ x, match f x with Dispatch _ => False | _ => True end) →
  dispatched (map f l) = [].
Proof.
  intros Hf. induction l as [|x l IH]; simpl; [done|].
  specialize (Hf x). unfold dispatched in *. simpl.
  destruct (f x); simpl; done.
Qed.

(** Every handler other than [_handleMessage] only emits effects that are
    not [Dispatch] and leaves [lastReceivedId] alone. *)
Ltac rx_same_tac :=
  intros; unfold rx_same;
  unfold fire, destroy, onopen, onclose, close, open, _startPing;
  unfold _reconnect, _stopPing, handshake_ack, send;
  unfold set_timer, clear_timer, emit; simpl;
  repeat case_match; simpl; (split; [done|]);
  rewrite ?dispatched_app; simpl;
  rewrite ?dispatched_map by (intros; exact I);
  rewrite ?app_nil_r; done.

Lemma rx_same_send cmd d c : rx_same c (send cmd d c).
Proof. rx_same_tac. Qed.

Lemma rx_same_open extra c : rx_same c (open extra c).
Proof. rx_same_tac. Qed.

Lemma rx_same_onopen c : rx_same c (onopen c).
Proof. rx_same_tac. Qed.

Lemma rx_same_handshake_ack c : rx_same c (handshake_ack c).1.
Proof. rx_same_tac. Qed.

Lemma rx_same_onclose reason c : rx_same c (onclose reason c).
Proof. rx_same_tac. Qed.

Lemma rx_same_close c : rx_same c (close c).
Proof. rx_same_tac. Qed.

Lemma rx_same_destroy c : rx_same c (destroy c).
Proof. rx_same_tac. Qed.

Lemma rx_same_fire t c : rx_same c (fire t c).
Proof. destruct t; rx_same_tac. Qed.

Lemma rx_same_call_listeners ls d c : rx_same c (call_listeners ls d c).
Proof.
  revert c. induction ls as [|l ls IH]; intros c; simpl; [done|].
  destruct l as [|fn].
  - pose proof (rx_same_handshake_ack c) as Ha.
    destruct (handshake_ack c) as [c' returned]. simpl in Ha.
    destruct returned; [|done]. eapply rx_same_trans; [exact Ha|apply IH].
  - eapply rx_same_trans; [|apply IH]. rx_same_tac.
Qed.

(** The listener loop of [_handleMessage] accepts the packet or nothing. *)
Lemma dispatch_spec msg c :
  lastReceivedId (dispatch msg c) = lastReceivedId c
  ∧ (dispatched (trace (dispatch msg c)) = dispatched (trace c)
     ∨ dispatched (trace (dispatch msg c)) = dispatched (trace c) ++ [msg]).
Proof.
  unfold dispatch. repeat case_match; try (split; [done|by left]).
  destruct (rx_same_call_listeners l (data msg) (emit [Dispatch msg] c))
    as [-> ->].
  split; [done|]. right. unfold emit. simpl. by rewrite dispatched_app.
Qed.

Lemma StronglySorted_snoc (l : list Z) (a : Z) :
  StronglySorted Z.lt l → Forall (λ x, x < a) l →
  StronglySorted Z.lt (l ++ [a]).
Proof.
  induction 1 as [|x l Hs IH Hall]; simpl; intros Hlt.
  - repeat constructor.
  - apply Forall_cons in Hlt as [Hx Hl]. constructor; [by apply IH|].
    apply Forall_app. split; [done|]. by constructor.
Qed.

Lemma rx_ok_same c c' : rx_same c c' → rx_ok c → rx_ok c'.
Proof.
  intros [Hl Hd] [Hs Hall]. unfold rx_ok, dispatched_ids. by rewrite Hd, Hl.
Qed.

Lemma _handleMessage_rx_ok msg c : rx_ok c → rx_ok (_handleMessage msg c).
Proof.
  intros [Hs Hall]. unfold _handleMessage.
  destruct (Z.eqb_spec (id msg) 0) as [Hz|Hnz]; simpl.
  - destruct (dispatch_spec msg c) as [Hl [Hd|Hd]];
      unfold rx_ok, dispatched_ids; rewrite Hd, Hl; [done|].
    rewrite fmap_app, filter_app. simpl.
    rewrite filter_cons, decide_False by (intros Hne; by apply Hne).
    rewrite filter_nil, app_nil_r. done.
  - destruct (Z.leb_spec (id msg) (lastReceivedId c)) as [Hle|Hgt]; [done|].
    destruct (dispatch_spec msg (set_lastReceivedId (id msg) c))
      as [Hl [Hd|Hd]];
      unfold rx_ok, dispatched_ids; rewrite Hd, Hl; simpl.
    + split; [done|]. eapply Forall_impl; [exact Hall|]. simpl. lia.
    + rewrite fmap_app, filter_app. simpl.
      rewrite filter_cons, decide_True by done. rewrite filter_nil.
      split.
      * apply StronglySorted_snoc; [done|].
        eapply Forall_impl; [exact Hall|]. simpl. lia.
      * apply Forall_app. split.
        -- eapply Forall_impl; [exact Hall|]. simpl. lia.
        -- by constructor.
Qed.

Lemma step_rx_ok c e : rx_ok c → rx_ok (step c e).
Proof.
  intros Hok. destruct e; cbn [step].
  - repeat case_match; try done.
    eapply rx_ok_same; [|exact Hok].
    apply (rx_same_onopen (set_sockets _ c)).
  - unfold onmessage. repeat case_match; try done;
      by apply _handleMessage_rx_ok.
  - repeat case_match; try done;
      (eapply rx_ok_same; [|exact Hok];
       apply (rx_same_onclose _ (set_sockets _ c))).
  - repeat case_match; try done;
      (eapply rx_ok_same; [|exact Hok];
       first [ apply (rx_same_fire _ (set_timers _ c))
             | apply rx_same_fire ]).
  - eapply rx_ok_same; [apply rx_same_open|done].
  - eapply rx_ok_same; [apply rx_same_close|done].
  - eapply rx_ok_same; [apply rx_same_send|done].
  - unfold on. by repeat case_match.
  - unfold off. by repeat case_match.
  - done.
  - done.
  - eapply rx_ok_same; [apply rx_same_destroy|done].
Qed.

Lemma run_rx_ok events c : rx_ok c → rx_ok (run events c).
Proof.
  revert c. induction events as [|e events IH]; intros c Hok; simpl; [done|].
  by apply IH, step_rx_ok.
Qed.

(** C6.  A packet whose id is non-zero and not above [lastReceivedId] is
    discarded by [_handleMessage]: the client is left exactly as it was, so
    no listener runs and [lastReceivedId] keeps its value.  Consequently,
    over the whole life of a client, the non-zero ids that reach the
    listeners do so in strictly increasing order: none is delivered twice. *)
Theorem duplicate_packets_are_discarded :
  (∀ (msg : Packet) (c : HanauClient),
     id msg ≠ 0 → id msg ≤ lastReceivedId c → _handleMessage msg c = c)
  ∧ (∀ (sid : string) (events : list Event),
       let c := run events (new_client sid) in
       StronglySorted Z.lt (dispatched_ids (trace c))
       ∧ NoDup (dispatched_ids (trace c))).
Proof.
  split.
  - intros msg c Hnz Hle. unfold _handleMessage.
    rewrite (proj2 (Z.eqb_neq _ _) Hnz). simpl.
    by rewrite (proj2 (Z.leb_le _ _) Hle).
  - intros sid events c.
    assert (rx_ok c) as [Hs _].
    { apply run_rx_ok. split; constructor. }
    split; [done|].
    clear -Hs. induction Hs as [|x l Hs IH Hall]; constructor; [|done].
    intros Hin. rewrite Forall_forall in Hall. specialize (Hall x Hin). lia.
Qed.

Lemma duplicate_packets_are_discarded_witness :
  let msg := mkPacket 1 (CStr "news") DNull in
  id msg ≠ 0 ∧ id msg ≤ lastReceivedId connected_client
  ∧ _handleMessage msg connected_client = connected_client.
Proof.
  intros msg.
  assert (id msg ≠ 0) as Hnz by discriminate.
  assert (id msg ≤ lastReceivedId connected_client) as Hle
    by (vm_compute; discriminate).
  split; [exact Hnz|]. split; [exact Hle|].
  exact (proj1 duplicate_packets_are_discarded msg connected_client Hnz Hle).
Defined.

(** *** Sequence ids on the client *)

(** The client's counter belongs to the client object, not to a socket:
    every [send] stamps the next id, whether the packet goes out or is
    queued, whatever has happened to the sockets in between. *)
Lemma send_stamps_next_id cmd d c :
  lastSentId (send cmd d c) = lastSentId c + 1
  ∧ (trace (send cmd d c)
     = trace c ++ [WsSend (default 0%nat (open_ws c))
                          (mkPacket (lastSentId c + 1) cmd d)]
     ∨ unsentQueue (send cmd d c)
       = unsentQueue c ++ [mkPacket (lastSentId c + 1) cmd d]).
Proof.
  unfold send. change (open_ws (set_lastSentId _ c)) with (open_ws c).
  destruct (open_ws c); simpl; split; auto.
Qed.

Ltac lastSentId_tac :=
  intros;
  unfold destroy, onopen, onclose, close, open, _startPing;
  unfold _reconnect, _stopPing, handshake_ack, send;
  unfold set_timer, clear_timer, emit; simpl;
  repeat case_match; simpl; lia.

Lemma lastSentId_call_listeners ls d c :
  lastSentId (call_listeners ls d c) = lastSentId c.
Proof.
  revert c. induction ls as [|[|fn] ls IH]; intros c; simpl; [done| |].
  - assert (lastSentId (handshake_ack c).1 = lastSentId c) as Ha
      by (unfold handshake_ack, clear_timer, emit; by repeat case_match).
    destruct (handshake_ack c) as [c' returned]. simpl in Ha.
    destruct returned; [by rewrite IH|done].
  - by rewrite IH.
Qed.

Lemma lastSentId_onopen c : lastSentId c ≤ lastSentId (onopen c).
Proof. lastSentId_tac. Qed.

Lemma lastSentId_onmessage raw c : lastSentId c ≤ lastSentId (onmessage raw c).
Proof.
  unfold onmessage, _handleMessage, dispatch.
  repeat case_match; rewrite ?lastSentId_call_listeners; simpl; lia.
Qed.

Lemma lastSentId_onclose reason c :
  lastSentId c ≤ lastSentId (onclose reason c).
Proof. lastSentId_tac. Qed.

Lemma lastSentId_fire t c : lastSentId c ≤ lastSentId (fire t c).
Proof. destruct t; unfold fire; lastSentId_tac. Qed.

(** No event and no call ever lowers the client's counter. *)
Lemma lastSentId_step c e : lastSentId c ≤ lastSentId (step c e).
Proof.
  destruct e; cbn [step].
  - repeat case_match; try lia. apply (lastSentId_onopen (set_sockets _ c)).
  - repeat case_match; try lia; apply lastSentId_onmessage.
  - repeat case_match; try lia;
      apply (lastSentId_onclose _ (set_sockets _ c)).
  - repeat case_match; try lia;
      first [ apply (lastSentId_fire _ (set_timers _ c))
            | apply lastSentId_fire ].
  - lastSentId_tac.
  - lastSentId_tac.
  - lastSentId_tac.
  - unfold on. repeat case_match; simpl; lia.
  - unfold off. repeat case_match; simpl; lia.
  - simpl. lia.
  - simpl. lia.
  - lastSentId_tac.
Qed.

(** What the restart of the server's ids does to a reconnecting client: the
    acknowledgement and the packet of the second connection carry ids the
    client has already seen, so it discards both.  The handshake is never
    completed and the second packet never reaches the application. *)
Lemma restarted_ids_are_discarded_by_client :
  lastReceivedId reconnecting_client = 2
  ∧ handshakeComplete reconnecting_client = false
  ∧ delivered (trace reconnecting_client) = [(9%nat, DValue "first")].
Proof. by vm_compute. Qed.

End ClientFacts.

(** * Further properties of the server *)

Module ServerMore.
Import Server ServerFacts.

Local Arguments bump : simpl never.

(** ** The socket store *)

Lemma update_ws_lookup_ne r r' f s :
  r ≠ r' → sockets (update_ws r f s) !! r' = sockets s !! r'.
Proof.
  intros Hne. unfold update_ws. case_match; [|done]. simpl.
  by apply list_lookup_insert_ne.
Qed.

Lemma update_ws_lookup_any r r' f s w :
  sockets s !! r' = Some w →
  sockets (update_ws r f s) !! r' = Some (if decide (r = r') then f w else w).
Proof.
  intros Hw. case_decide as Heq.
  - subst. by apply update_ws_lookup.
  - by rewrite update_ws_lookup_ne.
Qed.

Lemma update_ws_immediates r f s : immediates (update_ws r f s) = immediates s.
Proof. unfold update_ws. by case_match. Qed.

Lemma update_ws_connectionListeners r f s :
  connectionListeners (update_ws r f s) = connectionListeners s.
Proof. unfold update_ws. by case_match. Qed.

(** ** Refused frames *)

(** What refusing a frame on socket [r] with a close code comes to: the
    close call is the only effect, the socket stops being open, and the
    registry, the histories and the replay queue are untouched. *)
Lemma ws_close_effects r w code reason s :
  sockets s !! r = Some w →
  trace (ws_close r code reason s) = trace s ++ [WsClose r code reason]
  ∧ sockets (ws_close r code reason s) !! r = Some (closing w)
  ∧ clients (ws_close r code reason s) = clients s
  ∧ clientHistories (ws_close r code reason s) = clientHistories s
  ∧ immediates (ws_close r code reason s) = immediates s.
Proof.
  intros Hw. unfold ws_close, emit. simpl.
  rewrite update_ws_trace, update_ws_clients, update_ws_histories,
    update_ws_immediates, (update_ws_lookup _ _ _ _ Hw).
  done.
Qed.

(** A frame that is not JSON is answered with close code 1003, on any
    socket, bound or not, and has no other effect. *)
Theorem invalid_json_is_refused (r : nat) (w : HanauWebSocket)
    (s : HanauServer) :
  sockets s !! r = Some w →
  let s' := on_message r RawInvalid s in
  trace s' = trace s ++ [WsClose r (Some 1003) "invalid JSON"]
  ∧ sockets s' !! r = Some (closing w)
  ∧ clients s' = clients s
  ∧ clientHistories s' = clientHistories s
  ∧ immediates s' = immediates s.
Proof.
  intros Hw. unfold on_message. rewrite Hw. by apply ws_close_effects.
Qed.

Lemma invalid_json_is_refused_witness :
  let s := run bound_scenario new_server in
  trace (on_message 0 RawInvalid s)
  = trace s ++ [WsClose 0 (Some 1003) "invalid JSON"].
Proof.
  exact (proj1 (invalid_json_is_refused 0 (mkWs (Some "s"%string) true 1 OPEN 0)
                  (run bound_scenario new_server) eq_refl)).
Defined.

(** A handshake whose payload has no session id, or an empty one, is
    answered with close code 4001: the connection is not bound, no
    acknowledgement is sent and no replay is queued. *)
Theorem handshake_without_session_id_is_refused
    (r : nat) (w : HanauWebSocket) (n : Z) (d : Data) (s : HanauServer) :
  sockets s !! r = Some w →
  (∀ sid l e, d = DHandshake (Some sid) l e → sid = ""%string) →
  let s' := on_message r (RawMsg (mkPacket n (CStr "handshake") d)) s in
  trace s' = trace s ++ [WsClose r (Some 4001) "handshake missing sessionId"]
  ∧ sockets s' !! r = Some (closing w)
  ∧ clients s' = clients s
  ∧ clientHistories s' = clientHistories s
  ∧ immediates s' = immediates s.
Proof.
  intros Hw Hd. unfold on_message. rewrite Hw. simpl.
  assert (truthy_sid (match d with
                      | DHandshake sid l _ => (sid, default 0 l)
                      | _ => (None, 0)
                      end).1 = None) as Hnone.
  { destruct d as [| | |[sid|] l e]; simpl; try done.
    by rewrite (Hd sid l e eq_refl). }
  destruct (match d with
            | DHandshake sid l _ => (sid, default 0 l)
            | _ => (None, 0)
            end) as [sid0 l0].
  simpl in Hnone. rewrite Hnone. by apply ws_close_effects.
Qed.

Lemma handshake_without_session_id_is_refused_witness :
  let s := run [EvConnection] new_server in
  let s' := on_message 0 (RawMsg (mkPacket 1 (CStr "handshake")
                                   (DHandshake (Some "") (Some 0) ""))) s in
  trace s' = [WsClose 0 (Some 4001) "handshake missing sessionId"]
  ∧ clients s' = [].
Proof.
  destruct (handshake_without_session_id_is_refused 0 (mkWs None true 0 OPEN 0)
              1 (DHandshake (Some ""%string) (Some 0) "")
              (run [EvConnection] new_server) eq_refl)
    as (Ht & _ & Hc & _).
  { intros sid l e [= <- _ _]. done. }
  split; [exact Ht | exact Hc].
Defined.

(** Any command other than [handshake] on a connection that has not
    completed a handshake is answered with close code 4003: no handler is
    called and nothing is sent back, not even a pong. *)
Theorem command_before_handshake_is_refused
    (r : nat) (w : HanauWebSocket) (msg : Packet) (s : HanauServer) :
  sockets s !! r = Some w →
  truthy_sid (sessionId w) = None →
  command msg ≠ CStr "handshake" →
  let s' := on_message r (RawMsg msg) s in
  trace s' = trace s ++ [WsClose r (Some 4003) "handshake required"]
  ∧ sockets s' !! r = Some (closing w)
  ∧ clients s' = clients s
  ∧ clientHistories s' = clientHistories s
  ∧ immediates s' = immediates s.
Proof.
  intros Hw Hsid Hcmd. unfold on_message. rewrite Hw. simpl.
  rewrite decide_False by done. rewrite Hsid. by apply ws_close_effects.
Qed.

Lemma command_before_handshake_is_refused_witness :
  let s := run [EvConnection] new_server in
  trace (on_message 0 (RawMsg (mkPacket 1 (CStr "ping") DNull)) s)
  = [WsClose 0 (Some 4003) "handshake required"].
Proof.
  refine (proj1 (command_before_handshake_is_refused 0 (mkWs None true 0 OPEN 0)
                   (mkPacket 1 (CStr "ping") DNull)
                   (run [EvConnection] new_server) eq_refl eq_refl _)).
  discriminate.
Defined.

(** ** Handshake hooks *)

Lemma run_hooks_accept hooks d :
  run_hooks hooks d = HookTrue ↔ Forall (λ h, h d = HookTrue) hooks.
Proof.
  induction hooks as [|h hooks IH]; simpl.
  - split; [constructor|done].
  - rewrite Forall_cons. destruct (h d) eqn:Hh.
    + rewrite IH. tauto.
    + split; [done|]. by intros [? _].
Qed.

Lemma run_hooks_reject hooks1 hook hooks2 d code reason :
  Forall (λ h, h d = HookTrue) hooks1 →
  hook d = HookReject code reason →
  run_hooks (hooks1 ++ hook :: hooks2) d = HookReject code reason.
Proof.
  intros Hacc Hrej. induction Hacc as [|h hooks1 Hh _ IH]; simpl.
  - by rewrite Hrej.
  - by rewrite Hh.
Qed.

(** The hooks are consulted in registration order and the first one that
    does not answer [true] decides: the connection is closed with that
    hook's code and reason, whatever the later hooks would have said, and the
    handshake binds nothing, acknowledges nothing and queues no replay. *)
Theorem first_rejecting_hook_refuses_handshake
    (r : nat) (w : HanauWebSocket) (n : Z) (sid : string) (l : option Z)
    (e : string) (s : HanauServer)
    (hooks1 : list (Data → HookResult)) (hook : Data → HookResult)
    (hooks2 : list (Data → HookResult)) (code : Z) (reason : string) :
  let d := DHandshake (Some sid) l e in
  sockets s !! r = Some w →
  sid ≠ ""%string →
  handshakeListeners s = hooks1 ++ hook :: hooks2 →
  Forall (λ h, h d = HookTrue) hooks1 →
  hook d = HookReject code reason →
  let s' := on_message r (RawMsg (mkPacket n (CStr "handshake") d)) s in
  trace s' = trace s ++ [WsClose r (Some code) reason]
  ∧ sockets s' !! r = Some (closing w)
  ∧ clients s' = clients s
  ∧ clientHistories s' = clientHistories s
  ∧ immediates s' = immediates s.
Proof.
  intros d Hw Hsid Hhooks Hacc Hrej. unfold on_message. rewrite Hw. simpl.
  rewrite decide_False by done.
  rewrite Hhooks, (run_hooks_reject _ _ _ _ _ _ Hacc Hrej).
  by apply ws_close_effects.
Qed.

Lemma first_rejecting_hook_refuses_handshake_witness :
  let s := run [CallOnHandshake (λ _, HookTrue);
                CallOnHandshake (λ _, HookReject 4400 "no");
                CallOnHandshake (λ _, HookReject 4500 "never asked");
                EvConnection] new_server in
  let s' := step s (EvMessage 0 (handshake_msg 1 "s" 0)) in
  trace s' = [WsClose 0 (Some 4400) "no"] ∧ clients s' = [].
Proof.
  destruct (first_rejecting_hook_refuses_handshake 0 (mkWs None true 0 OPEN 0)
              1 "s" (Some 0) ""
              (run [CallOnHandshake (λ _, HookTrue);
                    CallOnHandshake (λ _, HookReject 4400 "no");
                    CallOnHandshake (λ _, HookReject 4500 "never asked");
                    EvConnection] new_server)
              [λ _, HookTrue] (λ _, HookReject 4400 "no")
              [λ _, HookReject 4500 "never asked"] 4400 "no"
              eq_refl ltac:(discriminate) eq_refl
              ltac:(by repeat constructor) eq_refl)
    as (Ht & _ & Hc & _).
  split; [exact Ht | exact Hc].
Defined.

(** ** Accepted handshakes *)

Lemma closing_lastSentId w : lastSentId (closing w) = lastSentId w.
Proof. unfold closing. by case_match. Qed.

Lemma closing_sessionId w : sessionId (closing w) = sessionId w.
Proof. unfold closing. by case_match. Qed.

(** A handshake that carries a session id and passes every hook: the
    connection bound to the session so far, if any, is closed with code 4002
    first; the new connection is bound in its place, other sessions keep
    their binding; the acknowledgement is stamped with the connection's next
    id and is the only packet sent in the turn, the replay being queued for
    later; the connection listeners are told last; the session's history is
    left as it was, created empty if there was none. *)
Theorem accepted_handshake_effects
    (r : nat) (w : HanauWebSocket) (n : Z) (sid : string) (l : option Z)
    (e : string) (s : HanauServer) :
  let d := DHandshake (Some sid) l e in
  sockets s !! r = Some w →
  sid ≠ ""%string →
  Forall (λ h, h d = HookTrue) (handshakeListeners s) →
  let s' := on_message r (RawMsg (mkPacket n (CStr "handshake") d)) s in
  trace s'
  = trace s
    ++ match JsMap.get sid (clients s) with
       | Some old => [WsClose old (Some 4002) "duplicate session"]
       | None => []
       end
    ++ [WsSend r (ack (lastSentId w + 1))]
    ++ map (λ fn, CbConnection fn sid) (connectionListeners s)
  ∧ JsMap.get sid (clients s') = Some r
  ∧ (∀ sid', sid' ≠ sid →
       JsMap.get sid' (clients s') = JsMap.get sid' (clients s))
  ∧ (∃ w', sockets s' !! r = Some w'
           ∧ sessionId w' = Some sid ∧ lastSentId w' = lastSentId w + 1)
  ∧ immediates s' = immediates s ++ [mkReplay sid (default 0 l) r]
  ∧ is_Some (JsMap.get sid (clientHistories s'))
  ∧ history_of sid s' = history_of sid s.
Proof.
  intros d Hw Hsid Hhooks. unfold on_message. rewrite Hw. simpl.
  rewrite decide_False by done.
  rewrite (proj2 (run_hooks_accept _ _) Hhooks).
  unfold accept_handshake.
  set (s1 := match JsMap.get sid (clients s) with
             | Some oldWs => ws_close oldWs (Some 4002) "duplicate session" s
             | None => s
             end).
  assert (∃ w1, sockets s1 !! r = Some w1
                ∧ lastSentId w1 = lastSentId w) as (w1 & Hw1 & Hl1).
  { unfold s1. destruct (JsMap.get sid (clients s)) as [old|]; [|by eexists].
    unfold ws_close, emit. simpl.
    rewrite (update_ws_lookup_any old r closing s w Hw).
    eexists. split; [done|]. case_decide; [apply closing_lastSentId|done]. }
  assert (clients s1 = clients s ∧ clientHistories s1 = clientHistories s
          ∧ immediates s1 = immediates s
          ∧ connectionListeners s1 = connectionListeners s
          ∧ trace s1 = trace s
              ++ match JsMap.get sid (clients s) with
                 | Some old => [WsClose old (Some 4002) "duplicate session"]
                 | None => []
                 end) as (Hc1 & Hh1 & Hi1 & Hcl1 & Ht1).
  { unfold s1. destruct (JsMap.get sid (clients s)) as [old|];
      [|by rewrite app_nil_r].
    unfold ws_close, emit. simpl.
    by rewrite update_ws_clients, update_ws_histories, update_ws_immediates,
      update_ws_connectionListeners, update_ws_trace. }
  clearbody s1.
  pose proof (update_ws_lookup r (set_sessionId (Some sid)) s1 w1 Hw1) as Hw2.
  set (s2 := set_clients _ (update_ws r (set_sessionId (Some sid)) s1)).
  assert (sockets s2 !! r = Some (set_sessionId (Some sid) w1)) as Hw2' by done.
  pose proof (update_ws_lookup r (λ w0, set_lastSentId (lastSentId w0 + 1) w0)
                s2 _ Hw2') as Hw3.
  set (s3 := update_ws r (λ w0, set_lastSentId (lastSentId w0 + 1) w0) s2)
    in *.
  assert (clients s3 = JsMap.set sid r (clients s)
          ∧ clientHistories s3 = clientHistories s
          ∧ immediates s3 = immediates s
          ∧ connectionListeners s3 = connectionListeners s
          ∧ trace s3 = trace s1) as (Hc3 & Hh3 & Hi3 & Hcl3 & Ht3).
  { unfold s3, s2.
    rewrite update_ws_clients, update_ws_histories, update_ws_immediates,
      update_ws_connectionListeners, update_ws_trace. simpl.
    rewrite update_ws_clients, update_ws_histories, update_ws_immediates,
      update_ws_connectionListeners, update_ws_trace.
    by rewrite Hc1, Hh1, Hi1, Hcl1. }
  clearbody s3. clear s2 Hw2 Hw2'. rewrite Hw3.
  unfold notify_connection, _send, emit, history_of, JsMap.has.
  cbn [clientHistories set_trace lastSentId set_lastSentId set_sessionId].
  rewrite Hh3.
  destruct (JsMap.get sid (clientHistories s)) as [h|] eqn:Hh; simpl;
    rewrite ?Hh3, ?Hcl3, ?Ht3, ?Ht1, ?Hi3, ?Hc3, ?Hl1, ?Hh, ?get_set_eq,
      <- ?app_assoc; simpl.
  all: repeat split; try done; try apply get_set_eq;
    try (intros sid' Hne; by apply get_set_ne);
    try (by eexists).
  all: eexists; split; [exact Hw3|]; simpl; split; [done|lia].
Qed.

Lemma accepted_handshake_effects_witness :
  let s := run [CallOnConnection 5; EvConnection;
                EvMessage 0 (handshake_msg 1 "s" 0); EvImmediate;
                EvConnection] new_server in
  let s' := step s (EvMessage 1 (handshake_msg 1 "s" 4)) in
  trace s' = trace s ++ [WsClose 0 (Some 4002) "duplicate session";
                         WsSend 1 (ack 1); CbConnection 5 "s"]
  ∧ JsMap.get "s" (clients s') = Some 1%nat
  ∧ immediates s' = [mkReplay "s" 4 1].
Proof.
  destruct (accepted_handshake_effects 1 (mkWs None true 0 OPEN 0) 1 "s"
              (Some 4) ""
              (run [CallOnConnection 5; EvConnection;
                    EvMessage 0 (handshake_msg 1 "s" 0); EvImmediate;
                    EvConnection] new_server)
              eq_refl ltac:(discriminate) ltac:(constructor))
    as (Ht & Hb & _ & _ & Hi & _).
  split; [exact Ht|]. split; [exact Hb | exact Hi].
Defined.

(** ** Replay *)

Lemma replay_frame rp s :
  clients (replay rp s) = clients s
  ∧ sockets (replay rp s) = sockets s
  ∧ clientHistories (replay rp s) = clientHistories s
  ∧ immediates (replay rp s) = immediates s.
Proof.
  unfold replay. destruct (JsMap.get _ _) as [history|]; [|done].
  revert s. induction history as [|e history IH]; intros s; simpl; [done|].
  destruct (IH (if rp_lastReceivedId rp <? e.1
                then _send (rp_extWs rp) e.2 s else s))
    as (-> & -> & -> & ->).
  by case_match.
Qed.

(** The deferred replay only sends: it hands the socket the retained
    entries above the [lastReceivedId] captured at the handshake, in history
    order, and changes neither the registry, nor the sockets, nor the
    histories.  It reads the history as it is when the replay runs, and it
    addresses the socket captured at the handshake whether or not that
    socket is still the one bound to the session. *)
Theorem replay_only_sends (rp : Replay) (s : HanauServer) :
  trace (replay rp s)
  = trace s ++ map (λ e, WsSend (rp_extWs rp) e.2)
                   (filter (λ e, rp_lastReceivedId rp < e.1)
                           (history_of (rp_sessionId rp) s))
  ∧ clients (replay rp s) = clients s
  ∧ sockets (replay rp s) = sockets s
  ∧ clientHistories (replay rp s) = clientHistories s
  ∧ immediates (replay rp s) = immediates s.
Proof.
  split; [apply replay_sends_entries_above|apply replay_frame].
Qed.

(** ** The history as a queue *)

Lemma set_fresh {V : Type} (k : Z) (v : V) (m : list (Z * V)) :
  k ∉ JsMap.keys m → JsMap.set k v m = m ++ [(k, v)].
Proof.
  unfold JsMap.keys. induction m as [|[k' v'] m IH]; simpl; [done|].
  intros Hni. apply not_elem_of_cons in Hni as [Hne Hni].
  rewrite decide_False by done. by rewrite IH.
Qed.

Lemma foldr_min_head (x : Z) (r : list Z) :
  Forall (λ y, x < y) r → foldr Z.min x r = x.
Proof. induction 1 as [|y r Hy _ IH]; simpl; [done|]. rewrite IH. lia. Qed.

(** When ids arrive in increasing order the history is a first-in,
    first-out queue: a packet whose id is above every retained id is
    appended at the end, and when that makes 101 entries the first entry,
    the oldest, is the one dropped.  The history stays in increasing id
    order. *)
Theorem history_record_fifo (packet : Packet) (h : list (Z * Packet)) :
  StronglySorted Z.lt (JsMap.keys h) →
  Forall (λ k, k < id packet) (JsMap.keys h) →
  (JsMap.size h ≤ 100)%nat →
  history_record packet h
  = (if decide (JsMap.size h < 100)%nat then h else drop 1 h)
    ++ [(id packet, packet)]
  ∧ StronglySorted Z.lt (JsMap.keys (history_record packet h)).
Proof.
  intros Hs Hlt Hsize.
  assert (id packet ∉ JsMap.keys h) as Hfresh.
  { intros Hin. rewrite Forall_forall in Hlt. specialize (Hlt _ Hin). lia. }
  assert (StronglySorted Z.lt (JsMap.keys (h ++ [(id packet, packet)])))
    as Hs'.
  { unfold JsMap.keys in *. rewrite fmap_app. simpl.
    by apply ClientFacts.StronglySorted_snoc. }
  unfold history_record. rewrite (set_fresh _ _ _ Hfresh).
  unfold JsMap.size in *. rewrite length_app. simpl.
  case_decide as Hroom.
  - rewrite (proj2 (Nat.ltb_ge _ _)) by lia. done.
  - rewrite (proj2 (Nat.ltb_lt _ _)) by lia.
    destruct h as [|[k0 p0] h]; [simpl in *; lia|].
    unfold JsMap.keys in *. simpl in *.
    apply StronglySorted_inv in Hs as [Hs Hall].
    apply Forall_cons in Hlt as [Hk0 Hlt].
    rewrite fmap_app. simpl. rewrite foldr_min_head.
    2:{ apply Forall_app. split; [done|]. by constructor. }
    rewrite decide_True by done.
    rewrite delete_not_elem.
    + split; [done|]. by apply StronglySorted_inv in Hs' as [Hs' _].
    + unfold JsMap.keys. rewrite fmap_app. simpl.
      intros Hin. apply elem_of_app in Hin as [Hin|Hin].
      * rewrite Forall_forall in Hall. specialize (Hall _ Hin). lia.
      * apply list_elem_of_singleton in Hin. lia.
Qed.

Lemma history_record_fifo_witness :
  let h := JsMap.set 2 (mkPacket 2 news DNull)
             (JsMap.set 1 (mkPacket 1 news DNull) []) in
  history_record (mkPacket 3 news DNull) h = h ++ [(3, mkPacket 3 news DNull)].
Proof.
  refine (proj1 (history_record_fifo (mkPacket 3 news DNull)
                   [(1, mkPacket 1 news DNull); (2, mkPacket 2 news DNull)]
                   _ _ _)).
  - repeat constructor; lia.
  - repeat constructor; simpl; lia.
  - simpl. lia.
Defined.

(** ** What happens to sockets and bindings over time *)

Lemma socket_le_refl w : socket_le w w.
Proof. split; [lia|done]. Qed.

Lemma socket_le_trans w1 w2 w3 :
  socket_le w1 w2 → socket_le w2 w3 → socket_le w1 w3.
Proof. intros [H1 H2] [H3 H4]. split; [lia|auto]. Qed.

Lemma sockets_grow_refl s : sockets_grow s s.
Proof. intros r w Hw. exists w. split; [done|apply socket_le_refl]. Qed.

Lemma sockets_grow_trans s1 s2 s3 :
  sockets_grow s1 s2 → sockets_grow s2 s3 → sockets_grow s1 s3.
Proof.
  intros H12 H23 r w Hw. destruct (H12 r w Hw) as (w2 & Hw2 & Hle2).
  destruct (H23 r w2 Hw2) as (w3 & Hw3 & Hle3).
  exists w3. split; [done|]. by eapply socket_le_trans.
Qed.

Lemma sockets_grow_update_ws r f s :
  (∀ w, socket_le w (f w)) → sockets_grow s (update_ws r f s).
Proof.
  intros Hf r' w Hw. rewrite (update_ws_lookup_any r r' f s w Hw).
  eexists. split; [done|]. case_decide; [apply Hf|apply socket_le_refl].
Qed.

Lemma sockets_grow_eq s s' : sockets s' = sockets s → sockets_grow s s'.
Proof.
  intros Hs r w Hw. exists w. rewrite Hs. split; [done|apply socket_le_refl].
Qed.

Lemma shrinks_refl s : shrinks s s.
Proof. split; [apply sockets_grow_refl|done]. Qed.

Lemma shrinks_trans s1 s2 s3 : shrinks s1 s2 → shrinks s2 s3 → shrinks s1 s3.
Proof.
  intros [H1 H2] [H3 H4]. split; [by eapply sockets_grow_trans|].
  by etrans.
Qed.

Lemma shrinks_frame s s' :
  sockets s' = sockets s → clients s' = clients s → shrinks s s'.
Proof.
  intros Hs Hc. split; [by apply sockets_grow_eq|by rewrite Hc].
Qed.

Lemma shrinks_update_ws r f s :
  (∀ w, socket_le w (f w)) → shrinks s (update_ws r f s).
Proof.
  intros Hf. split; [by apply sockets_grow_update_ws|].
  by rewrite update_ws_clients.
Qed.

Lemma delete_sublist {K V : Type} `{EqDecision K} (k : K) (m : list (K * V)) :
  JsMap.delete k m `sublist_of` m.
Proof.
  induction m as [|[k' v'] m IH]; simpl; [done|].
  case_decide; [by apply sublist_cons|by apply sublist_skip].
Qed.

Lemma shrinks_delete sid s :
  shrinks s (set_clients (JsMap.delete sid (clients s)) s).
Proof. split; [by apply sockets_grow_eq|apply delete_sublist]. Qed.

Lemma socket_le_closing w : socket_le w (closing w).
Proof.
  split; [by rewrite closing_lastSentId|by rewrite closing_sessionId].
Qed.

Lemma socket_le_bump w : socket_le w (bump w).
Proof.
  split; [rewrite bump_lastSentId; lia|].
  unfold bump. by case_match.
Qed.

Lemma shrinks_ws_close r code reason s : shrinks s (ws_close r code reason s).
Proof.
  eapply shrinks_trans; [apply (shrinks_update_ws r closing), socket_le_closing|].
  by apply shrinks_frame.
Qed.

Lemma shrinks_ws_terminate r s : shrinks s (ws_terminate r s).
Proof.
  eapply shrinks_trans; [apply (shrinks_update_ws r closing), socket_le_closing|].
  by apply shrinks_frame.
Qed.

Lemma shrinks_on_close r s : shrinks s (on_close r s).
Proof.
  unfold on_close.
  assert (shrinks s (update_ws r (set_readyState CLOSED) s)) as H1
    by (apply shrinks_update_ws; intros; split; [simpl; lia|done]).
  repeat case_match; try done.
  eapply shrinks_trans; [exact H1|].
  eapply shrinks_trans; [apply shrinks_delete|]. by apply shrinks_frame.
Qed.

Lemma shrinks_sweep_client r s : shrinks s (sweep_client r s).
Proof.
  unfold sweep_client. repeat case_match; try apply shrinks_refl.
  - eapply shrinks_trans; [apply shrinks_ws_terminate|].
    eapply shrinks_trans; [apply shrinks_delete|]. by apply shrinks_frame.
  - apply shrinks_ws_terminate.
  - eapply shrinks_trans;
      [apply (shrinks_update_ws r (set_isAlive false));
       intros; split; [simpl; lia|done]|].
    by apply shrinks_frame.
Qed.

Lemma shrinks_broadcast_client cmd d r s :
  shrinks s (broadcast_client cmd d r s).
Proof.
  unfold broadcast_client. repeat case_match; try apply shrinks_refl.
  eapply shrinks_trans; [apply (shrinks_update_ws r bump), socket_le_bump|].
  by apply shrinks_frame.
Qed.

Lemma shrinks_clients_forEach f todo s :
  (∀ r s, shrinks s (f r s)) → shrinks s (clients_forEach f todo s).
Proof.
  intros Hf. revert s.
  induction todo as [|[k r] todo IH]; intros s; simpl; [apply shrinks_refl|].
  case_decide; [|apply IH].
  eapply shrinks_trans; [apply Hf|apply IH].
Qed.

Lemma accept_handshake_histories r sid l s :
  clientHistories (accept_handshake r sid l s)
  = if JsMap.has sid (clientHistories s) then clientHistories s
    else JsMap.set sid [] (clientHistories s).
Proof.
  unfold accept_handshake, notify_connection, emit, _send. simpl.
  assert (∀ s0,
            clientHistories
              match JsMap.get sid (clients s0) with
              | Some oldWs => ws_close oldWs (Some 4002) "duplicate session" s0
              | None => s0
              end = clientHistories s0) as Hold
    by (intros; case_match; [apply ws_close_histories|done]).
  rewrite !update_ws_histories. simpl. rewrite !update_ws_histories, Hold.
  destruct (JsMap.has sid (clientHistories s)); simpl;
    rewrite ?update_ws_histories; simpl;
    by rewrite ?update_ws_histories, ?Hold.
Qed.

Lemma shrinks_send sid cmd d s : shrinks s (send sid cmd d s).
Proof.
  unfold send.
  destruct (JsMap.get sid (clients s)) as [r|]; [|apply shrinks_refl].
  destruct (sockets s !! r) as [w|]; [|apply shrinks_refl].
  destruct (negb (is_open (readyState w))); [apply shrinks_refl|].
  assert (shrinks s (update_ws r bump s)) as Hb
    by apply shrinks_update_ws, socket_le_bump.
  eapply shrinks_trans; [exact Hb|]. case_match.
  - eapply shrinks_trans; [apply shrinks_ws_terminate|].
    eapply shrinks_trans; [apply shrinks_delete|]. by apply shrinks_frame.
  - repeat case_match; by apply shrinks_frame.
Qed.

Lemma shrinks_close s : shrinks s (close s).
Proof.
  unfold close. split; [|apply sublist_nil_l]. simpl.
  apply (shrinks_clients_forEach (λ r s0, ws_close r None "" s0)
           (clients s) (emit [WssClose] (set_pingInterval false s))).
  intros. apply shrinks_ws_close.
Qed.

(** Every event and call except an accepted handshake keeps the sockets and
    binds nothing. *)
Lemma shrinks_step s e :
  (∀ r raw, e ≠ EvMessage r raw) → shrinks s (step s e).
Proof.
  intros Hne. destruct e; cbn [step]; try by apply shrinks_frame.
  - split; [|done]. intros r w Hw. exists w. split; [|apply socket_le_refl].
    simpl. by apply lookup_app_l_Some.
  - apply shrinks_update_ws. intros. split; [simpl; lia|done].
  - by destruct (Hne ws raw).
  - apply shrinks_on_close.
  - apply shrinks_update_ws, socket_le_closing.
  - apply shrinks_update_ws. intros. split; [simpl; lia|done].
  - case_match; [apply shrinks_refl|].
    destruct (replay_frame r (set_immediates l s)) as (Hc & Hs & _).
    by apply shrinks_frame.
  - case_match; [|apply shrinks_refl].
    apply shrinks_clients_forEach, shrinks_sweep_client.
  - apply shrinks_send.
  - apply shrinks_clients_forEach. intros. apply shrinks_broadcast_client.
  - apply shrinks_close.
Qed.

Lemma truthy_sid_Some o sid : truthy_sid o = Some sid → o = Some sid ∧ sid ≠ ""%string.
Proof.
  unfold truthy_sid. destruct o as [sid0|]; [|done].
  case_decide; [done|]. by intros [= ->].
Qed.

Lemma truthy_sid_set sid : sid ≠ ""%string → truthy_sid (Some sid) = Some sid.
Proof. intros Hne. unfold truthy_sid. by rewrite decide_False. Qed.

(** The states an accepted handshake goes through, as far as the sockets
    and the registry are concerned. *)
Lemma accept_handshake_sockets_clients r sid l s :
  let s1 := match JsMap.get sid (clients s) with
            | Some oldWs => ws_close oldWs (Some 4002) "duplicate session" s
            | None => s
            end in
  let s2 := update_ws r (set_sessionId (Some sid)) s1 in
  let s3 := set_clients (JsMap.set sid r (clients s2)) s2 in
  let s4 := update_ws r (λ w, set_lastSentId (lastSentId w + 1) w) s3 in
  sockets (accept_handshake r sid l s) = sockets s4
  ∧ clients (accept_handshake r sid l s) = clients s4.
Proof.
  intros s1 s2 s3 s4. unfold accept_handshake. fold s1. fold s2. fold s3.
  fold s4. unfold notify_connection, _send, emit. simpl.
  by destruct (JsMap.has sid (clientHistories s4)).
Qed.

Lemma sockets_grow_accept_handshake r sid l s :
  sid ≠ ""%string → sockets_grow s (accept_handshake r sid l s).
Proof.
  intros Hsid.
  destruct (accept_handshake_sockets_clients r sid l s) as [Hs _].
  cbv zeta in Hs. eapply sockets_grow_trans; [|by apply sockets_grow_eq].
  eapply sockets_grow_trans; [|apply sockets_grow_update_ws].
  2:{ intros w. split; [simpl; lia|done]. }
  eapply sockets_grow_trans; [|by apply sockets_grow_eq].
  eapply sockets_grow_trans; [|apply sockets_grow_update_ws].
  2:{ intros w. split; [simpl; lia|].
      intros _. exists sid. by apply truthy_sid_set. }
  case_match; [apply shrinks_ws_close|apply sockets_grow_refl].
Qed.

Lemma sockets_grow_on_message r raw s : sockets_grow s (on_message r raw s).
Proof.
  unfold on_message. repeat case_match; subst;
    try apply sockets_grow_refl; try apply shrinks_ws_close;
    try by apply sockets_grow_eq.
  all: apply sockets_grow_accept_handshake;
    match goal with H : truthy_sid _ = Some _ |- _ =>
      by apply truthy_sid_Some in H as [_ ?] end.
Qed.

Lemma sockets_grow_step s e : sockets_grow s (step s e).
Proof.
  destruct e; try (apply shrinks_step; intros; discriminate).
  apply sockets_grow_on_message.
Qed.

(** Over any run of the server a socket object stays in the store, its id
    counter never goes down, and once it carries a session id it always
    carries one: neither a close event nor a termination clears it. *)
Theorem sockets_only_move_forward
    (events : list Event) (s : HanauServer) (r : nat) (w : HanauWebSocket) :
  sockets s !! r = Some w →
  ∃ w', sockets (run events s) !! r = Some w'
        ∧ lastSentId w ≤ lastSentId w'
        ∧ (is_Some (truthy_sid (sessionId w)) →
           is_Some (truthy_sid (sessionId w'))).
Proof.
  revert s w. induction events as [|e events IH]; intros s w Hw; simpl.
  - exists w. split; [done|]. split; [lia|done].
  - destruct (sockets_grow_step s e r w Hw) as (w1 & Hw1 & Hle1 & Hsid1).
    destruct (IH _ _ Hw1) as (w2 & Hw2 & Hle2 & Hsid2).
    exists w2. split; [done|]. split; [lia|auto].
Qed.

Lemma sockets_only_move_forward_witness :
  let s := run bound_scenario new_server in
  ∃ w', sockets (run [EvPingInterval; EvPingInterval; EvClose 0] s) !! 0%nat
        = Some w'
        ∧ 1 ≤ lastSentId w'
        ∧ (is_Some (truthy_sid (Some "s"%string)) →
           is_Some (truthy_sid (sessionId w'))).
Proof.
  exact (sockets_only_move_forward [EvPingInterval; EvPingInterval; EvClose 0]
           (run bound_scenario new_server) 0
           (mkWs (Some "s"%string) true 1 OPEN 0) eq_refl).
Defined.

(** ** The registry *)

Lemma Forall_sublist {A : Type} (P : A → Prop) (l1 l2 : list A) :
  l1 `sublist_of` l2 → Forall P l2 → Forall P l1.
Proof.
  induction 1 as [|x l1 l2 _ IH|x l1 l2 _ IH]; intros Hall; [done| |].
  - apply Forall_cons in Hall as [Hx Hall]. constructor; auto.
  - apply Forall_cons in Hall as [_ Hall]. auto.
Qed.

Lemma sublist_fmap_fst {A B : Type} (l1 l2 : list (A * B)) :
  l1 `sublist_of` l2 → l1.*1 `sublist_of` l2.*1.
Proof.
  induction 1; simpl; [done|by apply sublist_skip|by apply sublist_cons].
Qed.

Lemma registry_ok_grow s s' :
  sockets_grow s s' → Forall (λ e, ∃ w, sockets s !! e.2 = Some w
                                    ∧ is_Some (truthy_sid (sessionId w)))
                             (clients s) →
  Forall (λ e, ∃ w, sockets s' !! e.2 = Some w
                    ∧ is_Some (truthy_sid (sessionId w))) (clients s).
Proof.
  intros Hgrow Hall. eapply Forall_impl; [exact Hall|].
  intros e (w & Hw & Hsid). destruct (Hgrow _ _ Hw) as (w' & Hw' & _ & Hle).
  exists w'. auto.
Qed.

Lemma registry_ok_shrinks s s' : shrinks s s' → registry_ok s → registry_ok s'.
Proof.
  intros [Hgrow Hsub] [Hnd Hall]. split.
  - eapply sublist_NoDup; [exact Hnd|]. by apply sublist_fmap_fst.
  - eapply Forall_sublist; [exact Hsub|]. by apply registry_ok_grow.
Qed.

Lemma registry_ok_accept_handshake r w sid l s :
  sockets s !! r = Some w → sid ≠ ""%string →
  registry_ok s → registry_ok (accept_handshake r sid l s).
Proof.
  intros Hw Hsid Hok.
  destruct (accept_handshake_sockets_clients r sid l s) as [Hs Hc].
  cbv zeta in Hs, Hc.
  set (s1 := match JsMap.get sid (clients s) with
             | Some oldWs => ws_close oldWs (Some 4002) "duplicate session" s
             | None => s
             end) in *.
  assert (shrinks s s1) as H1
    by (unfold s1; case_match; [apply shrinks_ws_close|apply shrinks_refl]).
  set (s2 := update_ws r (set_sessionId (Some sid)) s1) in *.
  assert (shrinks s1 s2) as H2.
  { apply shrinks_update_ws. intros w0. split; [simpl; lia|].
    intros _. exists sid. by apply truthy_sid_set. }
  assert (registry_ok s2) as [Hnd2 Hall2]
    by (eapply registry_ok_shrinks; [exact H2|];
        by eapply registry_ok_shrinks).
  destruct (proj1 H1 r w Hw) as (w1 & Hw1 & _).
  pose proof (update_ws_lookup r (set_sessionId (Some sid)) s1 w1 Hw1) as Hw2.
  fold s2 in Hw2.
  set (s3 := set_clients (JsMap.set sid r (clients s2)) s2) in *.
  assert (registry_ok s3) as Hok3.
  { split; [by apply NoDup_keys_set|].
    apply Forall_set; [|done]. simpl. eexists. split; [exact Hw2|].
    exists sid. by apply truthy_sid_set. }
  set (s4 := update_ws r _ s3) in *.
  assert (shrinks s3 s4) as H4
    by (apply shrinks_update_ws; intros w0; split; [simpl; lia|done]).
  pose proof (registry_ok_shrinks _ _ H4 Hok3) as [Hnd4 Hall4].
  split; [by rewrite Hc|]. rewrite Hc.
  eapply Forall_impl; [exact Hall4|]. intros e0 Hx. by rewrite Hs.
Qed.

Lemma registry_ok_step s e : registry_ok s → registry_ok (step s e).
Proof.
  intros Hok.
  destruct e as [|r0|r raw|r0|r0|r0 n0| | |c0 h0|f0|f0|f0|sid0 c0 d0|c0 d0|];
    try (eapply registry_ok_shrinks; [|exact Hok]; apply shrinks_step;
         intros; discriminate).
  cbn [step]. unfold on_message.
  repeat case_match; subst; try done;
    try (eapply registry_ok_shrinks; [|exact Hok];
         first [apply shrinks_ws_close | by apply shrinks_frame]).
  all: eapply registry_ok_accept_handshake; [done| |done];
    match goal with H : truthy_sid _ = Some _ |- _ =>
      by apply truthy_sid_Some in H as [_ ?] end.
Qed.

Lemma registry_ok_run events s : registry_ok s → registry_ok (run events s).
Proof.
  revert s. induction events as [|e events IH]; intros s Hok; simpl; [done|].
  by apply IH, registry_ok_step.
Qed.

Lemma registry_ok_reachable events : registry_ok (run events new_server).
Proof. apply registry_ok_run. split; constructor. Qed.

(** Only an incoming message frame (an accepted handshake) can bind a
    session: every other event and every call leaves the registry as it
    was, or with entries removed and the rest in their order. *)
Theorem only_frames_bind (s : HanauServer) (e : Event) :
  (∀ r raw, e ≠ EvMessage r raw) →
  clients (step s e) `sublist_of` clients s.
Proof. intros Hne. by apply shrinks_step. Qed.

Lemma only_frames_bind_witness :
  let s := run bound_scenario new_server in
  clients (step s (EvClose 0)) `sublist_of` clients s.
Proof. apply only_frames_bind. discriminate. Defined.

(** ** Histories over time *)

Lemma send_histories_cases sid cmd d s :
  clientHistories (send sid cmd d s) = clientHistories s
  ∨ ∃ h, clientHistories (send sid cmd d s)
         = JsMap.set sid h (clientHistories s).
Proof.
  destruct (JsMap.get sid (clients s)) as [r|] eqn:Hr;
    [|left; by unfold send; rewrite Hr].
  destruct (sockets s !! r) as [w|] eqn:Hw;
    [|left; by unfold send; rewrite Hr, Hw].
  destruct (decide (readyState w = OPEN)) as [Hopen|Hno].
  2:{ left. rewrite send_without_open_connection_is_noop_aux; [done|].
      right. by exists r, w. }
  destruct (Z_le_gt_dec (bufferedAmount w) 5000000) as [Hbuf|Hbuf].
  - right. eexists. by apply (send_histories sid cmd d s r w).
  - left. unfold send. rewrite Hr, Hw, Hopen. simpl.
    rewrite (proj2 (Z.ltb_lt _ _)) by lia.
    unfold notify_disconnection, ws_terminate, emit. simpl.
    by rewrite !update_ws_histories.
Qed.

Lemma step_histories s e :
  match e with
  | CallSend sid _ _ =>
      clientHistories (step s e) = clientHistories s
      ∨ ∃ h, clientHistories (step s e) = JsMap.set sid h (clientHistories s)
  | _ =>
      clientHistories (step s e) = clientHistories s
      ∨ ∃ sid, JsMap.get sid (clientHistories s) = None
               ∧ clientHistories (step s e)
                 = JsMap.set sid [] (clientHistories s)
  end.
Proof.
  destruct e; cbn [step]; try (by left).
  - left. apply update_ws_histories.
  - unfold on_message. repeat case_match; subst; try (by left);
      try (left; apply ws_close_histories).
    all: rewrite accept_handshake_histories; unfold JsMap.has;
      destruct (JsMap.get _ (clientHistories s)) eqn:Hh; [by left|];
      right; eexists; by split.
  - left. apply on_close_histories.
  - left. apply update_ws_histories.
  - left. apply update_ws_histories.
  - left. case_match; [done|]. by rewrite replay_histories.
  - left. case_match; [|done].
    apply clients_forEach_histories, sweep_client_histories.
  - apply send_histories_cases.
  - left. apply broadcast_histories.
  - left. unfold close. cbn [clientHistories set_clients].
    rewrite clients_forEach_histories; [done|].
    intros. apply ws_close_histories.
Qed.

(** A session's history is never discarded: not when its connection closes,
    is terminated by the sweep or cut for backpressure, and not when the
    server is closed.  And it is written by nothing but a [send] to that
    session: handshakes, replays, broadcasts, pongs and error replies leave
    every retained entry as it was. *)
Theorem histories_persist (s : HanauServer) (e : Event) (sid : string) :
  (is_Some (JsMap.get sid (clientHistories s)) →
   is_Some (JsMap.get sid (clientHistories (step s e))))
  ∧ ((∀ cmd d, e ≠ CallSend sid cmd d) →
     history_of sid (step s e) = history_of sid s).
Proof.
  pose proof (step_histories s e) as Hstep. unfold history_of. split.
  - intros Hsome.
    assert (∀ sid' h, is_Some (JsMap.get sid
                                 (JsMap.set sid' h (clientHistories s))))
      as Hset.
    { intros sid' h. destruct (decide (sid = sid')) as [->|Hne].
      - rewrite get_set_eq. by eexists.
      - by rewrite get_set_ne. }
    destruct e; destruct Hstep as [->|(x & Hx)]; try done;
      (first [ rewrite Hx | destruct Hx as [_ Hx]; rewrite Hx ]); apply Hset.
  - intros Hne.
    destruct e; destruct Hstep as [->|(x & Hx)]; try done.
    all: try (lazymatch type of Hx with _ ∧ _ => idtac end;
              destruct Hx as [Hnone Hx]; rewrite Hx;
              destruct (decide (sid = x)) as [->|Hne'];
              [by rewrite get_set_eq, Hnone | by rewrite get_set_ne]).
    rewrite Hx. destruct (decide (sid = sid0)) as [->|Hne'].
    + by destruct (Hne cmd d).
    + by rewrite get_set_ne.
Qed.

Lemma histories_persist_witness :
  let s := run (session_with_sends "s" 3) new_server in
  history_of "s" (step s (CallBroadcast news DNull)) = history_of "s" s
  ∧ history_of "s" (step s (EvClose 0)) = history_of "s" s.
Proof.
  split.
  - apply (histories_persist (run (session_with_sends "s" 3) new_server)
             (CallBroadcast news DNull) "s"). discriminate.
  - apply (histories_persist (run (session_with_sends "s" 3) new_server)
             (EvClose 0) "s"). discriminate.
Defined.

(** ** Sending *)

Lemma bump_eq w : bump w = set_lastSentId (lastSentId w + 1) w.
Proof.
  unfold bump. destruct w as [sid al l rs b]. simpl.
  destruct (Z.eqb_spec l 0) as [->|]; done.
Qed.

(** A [send] to a session whose connection is open and has at most
    5,000,000 unsent bytes (the limit itself included) stamps the packet with
    the connection's next id, stores it in the session's history subject to
    the limit of 100, and hands it to the socket; that one frame is the only
    effect, and the registry is unchanged. *)
Theorem send_on_open_connection
    (sid : string) (cmd : Command) (d : Data) (s : HanauServer)
    (r : nat) (w : HanauWebSocket) :
  JsMap.get sid (clients s) = Some r →
  sockets s !! r = Some w →
  readyState w = OPEN →
  bufferedAmount w ≤ 5000000 →
  let packet := mkPacket (lastSentId w + 1) cmd d in
  let s' := send sid cmd d s in
  trace s' = trace s ++ [WsSend r packet]
  ∧ sockets s' = <[r := set_lastSentId (lastSentId w + 1) w]> (sockets s)
  ∧ clients s' = clients s
  ∧ history_of sid s' = history_record packet (history_of sid s)
  ∧ (∀ sid', sid' ≠ sid → history_of sid' s' = history_of sid' s).
Proof.
  intros Hr Hw Hopen Hbuf packet s'.
  assert (clientHistories s'
          = JsMap.set sid (history_record packet (history_of sid s))
                      (clientHistories s)) as Hh
    by by apply (send_histories sid cmd d s r w).
  assert (trace s' = trace s ++ [WsSend r packet]
          ∧ sockets s' = <[r := bump w]> (sockets s)
          ∧ clients s' = clients s) as (Ht & Hs & Hc).
  { unfold s', send. rewrite Hr, Hw, Hopen. cbn [negb is_open]. cbv zeta.
    rewrite (proj2 (Z.ltb_ge _ _) Hbuf), bump_lastSentId.
    unfold JsMap.has. rewrite update_ws_histories.
    destruct (JsMap.get sid (clientHistories s)) as [h0|] eqn:Hg; simpl.
    - rewrite update_ws_histories, Hg. unfold _send, emit. simpl.
      by rewrite update_ws_trace, update_ws_clients,
        (update_ws_sockets _ _ _ _ Hw).
    - rewrite get_set_eq. unfold _send, emit. simpl.
      by rewrite update_ws_trace, update_ws_clients,
        (update_ws_sockets _ _ _ _ Hw). }
  rewrite bump_eq in Hs.
  repeat split; try done.
  - unfold history_of at 1. by rewrite Hh, get_set_eq.
  - intros sid' Hne. unfold history_of at 1.
    by rewrite Hh, get_set_ne.
Qed.

Lemma send_on_open_connection_witness :
  let s := run [EvConnection; EvMessage 0 (handshake_msg 1 "s" 0);
                EvBuffered 0 5000000] new_server in
  trace (send "s" news DNull s)
  = trace s ++ [WsSend 0 (mkPacket 2 news DNull)].
Proof.
  refine (proj1 (send_on_open_connection "s" news DNull
                   (run [EvConnection; EvMessage 0 (handshake_msg 1 "s" 0);
                         EvBuffered 0 5000000] new_server)
                   0 (mkWs (Some "s"%string) true 1 OPEN 5000000)
                   eq_refl eq_refl eq_refl _)).
  simpl. lia.
Defined.

(** ** Walking the registry *)

Lemma get_NoDup_elem {K V : Type} `{EqDecision K} (k : K) (v : V)
    (m : list (K * V)) :
  NoDup (JsMap.keys m) → (k, v) ∈ m → JsMap.get k m = Some v.
Proof.
  unfold JsMap.keys. induction m as [|[k' v'] m IH]; simpl; intros Hnd Hin.
  - by apply elem_of_nil in Hin.
  - apply NoDup_cons in Hnd as [Hni Hnd].
    apply elem_of_cons in Hin as [[= <- <-]|Hin].
    + by rewrite decide_True.
    + rewrite decide_False; [by apply IH|].
      intros ->. apply Hni. by apply (list_elem_of_fmap_2 fst) in Hin.
Qed.

(** With one entry per session and a callback that leaves the registry
    alone, [forEach] calls it on every entry, in registry order. *)
Lemma clients_forEach_fold f todo s :
  (∀ r s, clients (f r s) = clients s) →
  NoDup (JsMap.keys (clients s)) →
  todo ⊆ clients s →
  clients_forEach f todo s = foldl (λ s e, f e.2 s) s todo.
Proof.
  intros Hf. revert s.
  induction todo as [|[k r] todo IH]; intros s Hnd Hsub; simpl; [done|].
  rewrite decide_True.
  2:{ apply get_NoDup_elem; [done|]. apply Hsub, list_elem_of_here. }
  apply IH; rewrite Hf; [done|].
  intros x Hx. apply Hsub. by apply list_elem_of_further.
Qed.

(** ** Closing the server *)






(** ** Broadcasting *)

Lemma broadcast_client_clients cmd d r s :
  clients (broadcast_client cmd d r s) = clients s.
Proof.
  unfold broadcast_client, _send, emit. repeat case_match; try done.
  simpl. apply update_ws_clients.
Qed.

Lemma bump_readyState_lookup r r' s :
  (readyState <$> sockets (update_ws r bump s) !! r')
  = (readyState <$> sockets s !! r').
Proof.
  destruct (sockets s !! r') as [w|] eqn:Hw.
  - rewrite (update_ws_lookup_any r r' bump s w Hw). simpl.
    case_decide; [by rewrite bump_readyState|done].
  - unfold update_ws. case_match; [|by rewrite Hw]. simpl.
    destruct (decide (r = r')) as [->|Hne]; [congruence|].
    by rewrite list_lookup_insert_ne, Hw.
Qed.

Lemma broadcast_client_readyState cmd d r r' s :
  (readyState <$> sockets (broadcast_client cmd d r s) !! r')
  = (readyState <$> sockets s !! r').
Proof.
  unfold broadcast_client, _send, emit. repeat case_match; try done.
  simpl. apply bump_readyState_lookup.
Qed.

Lemma broadcast_client_trace cmd d r s :
  trace (broadcast_client cmd d r s)
  = trace s
    ++ if decide ((readyState <$> sockets s !! r) = Some OPEN)
       then [WsSend r (mkPacket
                         (default 0 (lastSentId <$> sockets s !! r) + 1)
                         cmd d)]
       else [].
Proof.
  unfold broadcast_client, _send, emit.
  destruct (sockets s !! r) as [w|] eqn:Hw.
  - rewrite bump_lastSentId. simpl.
    destruct (readyState w) eqn:Hrs; simpl; rewrite ?app_nil_r; try done.
    by rewrite update_ws_trace.
  - simpl. by rewrite app_nil_r.
Qed.

Lemma foldl_broadcast_effects cmd d todo s :
  let s' := foldl (λ s (e : string * nat), broadcast_client cmd d e.2 s)
                  s todo in
  ∃ packets : list (nat * Packet),
    trace s' = trace s ++ ((λ rp, WsSend rp.1 rp.2) <$> packets)
    ∧ packets.*1
      = (filter (λ e : string * nat,
                   (readyState <$> sockets s !! e.2) = Some OPEN) todo).*2
    ∧ Forall (λ rp, command rp.2 = cmd ∧ data rp.2 = d) packets.
Proof.
  revert s. induction todo as [|[k r] todo IH]; intros s; simpl.
  - exists []. by rewrite app_nil_r.
  - destruct (IH (broadcast_client cmd d r s)) as (packets & Ht & Hs & Hall).
    rewrite Ht, broadcast_client_trace.
    assert (filter (λ e : string * nat,
                      (readyState
                         <$> sockets (broadcast_client cmd d r s) !! e.2)
                      = Some OPEN) todo
            = filter (λ e : string * nat,
                        (readyState <$> sockets s !! e.2) = Some OPEN) todo)
      as Hfilter.
    { apply list_filter_iff. intros e.
      by rewrite broadcast_client_readyState. }
    rewrite Hfilter in Hs. rewrite filter_cons. simpl.
    case_decide.
    + eexists ((r, _) :: packets). simpl. rewrite <- app_assoc. simpl.
      split; [done|]. split; [f_equal; exact Hs|]. by constructor.
    + exists packets. by rewrite app_nil_r.
Qed.

(** [broadcast] in a reachable state hands exactly one packet to each
    registry entry whose socket is open, in registry order, carrying the
    given command and data; entries whose socket is not open are skipped
    silently.  It sends nothing else, binds and unbinds nothing, and writes
    to no history. *)
Theorem broadcast_reaches_open_connections
    (events : list Event) (cmd : Command) (d : Data) :
  let s := run events new_server in
  let s' := broadcast cmd d s in
  ∃ packets : list (nat * Packet),
    trace s' = trace s ++ ((λ rp, WsSend rp.1 rp.2) <$> packets)
    ∧ packets.*1 = (bound_open s).*2
    ∧ Forall (λ rp, command rp.2 = cmd ∧ data rp.2 = d) packets
    ∧ clients s' = clients s
    ∧ clientHistories s' = clientHistories s.
Proof.
  intros s s'.
  destruct (registry_ok_reachable events) as [Hnd _]. fold s in Hnd.
  assert (s' = foldl (λ s (e : string * nat), broadcast_client cmd d e.2 s)
                     s (clients s)) as Hs'.
  { unfold s', broadcast.
    apply (clients_forEach_fold (broadcast_client cmd d)); try done.
    apply broadcast_client_clients. }
  destruct (foldl_broadcast_effects cmd d (clients s) s)
    as (packets & Ht & Hp & Hall).
  exists packets. rewrite Hs'. repeat split; try done.
  - rewrite <- Hs'. unfold s', broadcast.
    assert (∀ todo s0, clients (clients_forEach (broadcast_client cmd d)
                                  todo s0) = clients s0) as Hc.
    { induction todo as [|[k r] todo IH]; intros s0; simpl; [done|].
      case_decide; rewrite IH; [apply broadcast_client_clients|done]. }
    apply Hc.
  - rewrite <- Hs'. apply broadcast_histories.
Qed.

(** ** Command handlers *)






Lemma handled_app t1 t2 : handled (t1 ++ t2) = handled t1 ++ handled t2.
Proof. apply omap_app. Qed.

Lemma handled_CbConnection sid fns :
  handled (map (λ fn, CbConnection fn sid) fns) = [].
Proof. by induction fns. Qed.

Lemma accept_handshake_handled r sid l s :
  handled (trace (accept_handshake r sid l s)) = handled (trace s).
Proof.
  unfold accept_handshake, notify_connection, _send, emit.
  assert (∀ s0 : HanauServer,
            handled (trace
              match JsMap.get sid (clients s0) with
              | Some oldWs => ws_close oldWs (Some 4002) "duplicate session" s0
              | None => s0
              end) = handled (trace s0)) as Hold.
  { intros s0. case_match; [|done]. unfold ws_close, emit. simpl.
    by rewrite update_ws_trace, handled_app, app_nil_r. }
  destruct (JsMap.has _ _); simpl;
    rewrite ?update_ws_connectionListeners, ?update_ws_trace; simpl;
    rewrite ?update_ws_connectionListeners, ?update_ws_trace;
    rewrite !handled_app, handled_CbConnection, Hold; simpl;
    by rewrite !app_nil_r.
Qed.

(** [ping] and [handshake] are reserved: a handler registered under either
    name is never called, whatever the state of the connection. *)
Theorem reserved_commands_never_reach_handlers
    (r : nat) (msg : Packet) (s : HanauServer) :
  command msg = CStr "ping" ∨ command msg = CStr "handshake" →
  handled (trace (on_message r (RawMsg msg) s)) = handled (trace s).
Proof.
  intros Hcmd. unfold on_message.
  destruct (sockets s !! r) as [w|]; [|done].
  destruct Hcmd as [Hcmd|Hcmd]; rewrite Hcmd; simpl.
  - destruct (truthy_sid (sessionId w)); unfold ws_close, _send, emit; simpl;
      by rewrite ?update_ws_trace, handled_app, app_nil_r.
  - repeat case_match; subst; try apply accept_handshake_handled;
      unfold ws_close, emit; simpl;
      by rewrite ?update_ws_trace, handled_app, app_nil_r.
Qed.

Lemma reserved_commands_never_reach_handlers_witness :
  let s := run [CallOn "ping" 1; EvConnection;
                EvMessage 0 (handshake_msg 1 "s" 0)] new_server in
  handled (trace (on_message 0 (RawMsg (mkPacket 2 (CStr "ping") DNull)) s))
  = [].
Proof.
  apply (reserved_commands_never_reach_handlers 0
           (mkPacket 2 (CStr "ping") DNull)
           (run [CallOn "ping" 1; EvConnection;
                 EvMessage 0 (handshake_msg 1 "s" 0)] new_server)).
  by left.
Defined.

(** ** The liveness sweep *)

(** One unanswered ping is enough.  A visit of the sweep to a live bound
    connection pings it and clears its flag.  If no pong arrives before the
    next visit, that visit terminates the connection, unbinds the session
    and notifies the disconnection listeners; if a pong arrives in between,
    the next visit just pings again and the binding stays. *)
Theorem one_missed_pong_terminates
    (r : nat) (w : HanauWebSocket) (sid : string) (s : HanauServer) :
  sockets s !! r = Some w →
  isAlive w = true →
  truthy_sid (sessionId w) = Some sid →
  let s1 := sweep_client r s in
  trace s1 = trace s ++ [WsPing r]
  ∧ (trace (sweep_client r s1)
     = trace s ++ [WsPing r; WsTerminate r]
       ++ map (λ fn, CbDisconnection fn sid) (disconnectionListeners s)
     ∧ JsMap.get sid (clients (sweep_client r s1)) = None)
  ∧ (trace (sweep_client r (on_pong r s1)) = trace s ++ [WsPing r; WsPing r]
     ∧ clients (sweep_client r (on_pong r s1)) = clients s).
Proof.
  intros Hw Halive Hsid s1.
  destruct (sweep_client_alive r w s Hw Halive) as (Ht1 & Hw1 & Hc1).
  fold s1 in Ht1, Hw1, Hc1.
  assert (disconnectionListeners s1 = disconnectionListeners s) as Hd1.
  { unfold s1, sweep_client. rewrite Hw, Halive. simpl.
    unfold ws_ping, emit. simpl. apply update_ws_disconnectionListeners. }
  split; [done|]. split.
  - destruct (sweep_client_dead r (set_isAlive false w) sid s1 Hw1 eq_refl Hsid)
      as [-> ->].
    by rewrite Ht1, Hd1, <- app_assoc.
  - pose proof (update_ws_lookup r (set_isAlive true) s1 _ Hw1) as Hw2.
    destruct (sweep_client_alive r _ (on_pong r s1) Hw2 eq_refl)
      as (-> & _ & ->).
    unfold on_pong. rewrite update_ws_trace, update_ws_clients, Ht1, Hc1.
    by rewrite <- app_assoc.
Qed.

Lemma one_missed_pong_terminates_witness :
  let s := run bound_scenario new_server in
  trace (sweep_client 0 (sweep_client 0 s))
  = trace s ++ [WsPing 0; WsTerminate 0; CbDisconnection 7 "s"].
Proof.
  exact (proj1 (proj1 (proj2 (one_missed_pong_terminates 0
           (mkWs (Some "s"%string) true 1 OPEN 0) "s"
           (run bound_scenario new_server) eq_refl eq_refl eq_refl)))).
Defined.

End ServerMore.

(** * Further properties of the client *)

Module ClientMore.
Import Client ClientFacts.

(** ** The outbound queue *)

(** While the client has no open socket, [send] transmits nothing: the
    packets are stamped with consecutive ids and appended to the queue in
    call order. *)
Theorem sends_without_open_socket_are_queued
    (ps : list (Command * Data)) (c : HanauClient) :
  open_ws c = None →
  trace (send_all ps c) = trace c
  ∧ unsentQueue (send_all ps c) = unsentQueue c ++ stamp (lastSentId c) ps
  ∧ lastSentId (send_all ps c) = lastSentId c + Z.of_nat (length ps).
Proof.
  revert c. induction ps as [|p ps IH]; intros c Hclosed; simpl.
  - rewrite app_nil_r. split; [done|]. split; [done|lia].
  - assert (send p.1 p.2 c
            = set_unsentQueue
                (unsentQueue c ++ [mkPacket (lastSentId c + 1) p.1 p.2])
                (set_lastSentId (lastSentId c + 1) c)) as Hsend.
    { unfold send. change (open_ws (set_lastSentId _ c)) with (open_ws c).
      by rewrite Hclosed. }
    destruct (IH (send p.1 p.2 c)) as (Ht & Hq & Hl).
    { by rewrite Hsend. }
    unfold send_all in *. rewrite Ht, Hq, Hl, Hsend. simpl.
    rewrite <- app_assoc. split; [done|]. split; [done|lia].
Qed.

Lemma sends_without_open_socket_are_queued_witness :
  let c := new_client "s" in
  unsentQueue (send_all [(CStr "a", DNull); (CStr "b", DNull)] c)
  = [mkPacket 1 (CStr "a") DNull; mkPacket 2 (CStr "b") DNull].
Proof.
  exact (proj1 (proj2 (sends_without_open_socket_are_queued
                         [(CStr "a", DNull); (CStr "b", DNull)]
                         (new_client "s") eq_refl))).
Defined.





(** ** Explicit close *)

(** [close()] and [destroy()] end automatic reconnection for good: whatever
    events and calls follow, the close event of the socket and a later
    [open()] included, [mayReconnect] stays clear and no reconnect is
    scheduled. *)
Theorem close_ends_reconnection (events : list Event) (c : HanauClient) :
  (mayReconnect (run events (close c)) = false
   ∧ reconnect_delays (trace (run events (close c)))
     = reconnect_delays (trace c))
  ∧ (mayReconnect (run events (destroy c)) = false
     ∧ reconnect_delays (trace (run events (destroy c)))
       = reconnect_delays (trace c)).
Proof.
  assert (mayReconnect (close c) = false
          ∧ reconnect_delays (trace (close c)) = reconnect_delays (trace c))
    as [Hm Ht].
  { unfold close, emit. repeat case_match; simpl; (split; [done|]);
      by rewrite ?reconnect_delays_app, ?app_nil_r. }
  assert (mayReconnect (destroy c) = false
          ∧ reconnect_delays (trace (destroy c)) = reconnect_delays (trace c))
    as [Hm' Ht'].
  { unfold destroy. destruct (_stopPing_frame (close c)) as (Hts & Hms & _).
    cbn [mayReconnect trace set_messageListeners set_openListeners
           set_closeListeners set_unsentQueue].
    by rewrite Hts, Hms. }
  split.
  - destruct (run_gave_up events (close c) Hm) as [-> ->]. done.
  - destruct (run_gave_up events (destroy c) Hm') as [-> ->]. done.
Qed.

(** ** Opening a socket *)

(** When the current socket opens, the client resets its attempt counter,
    tells the open listeners, and sends the handshake at once with the next
    id.  The handshake carries the client's session id and the last id
    received, each replaced by the value the extra handshake data holds
    under the same key if it has that key, and the other keys of the extra
    data.  Then the client arms the ping interval (5000 ms) and the
    handshake timeout (3000 ms).  The queue is left waiting for the
    acknowledgement. *)
Theorem open_socket_sends_handshake (c : HanauClient) (k : nat) :
  ws c = Some k →
  sockets c !! k = Some CONNECTING →
  let c' := step c (EvOpen k) in
  let extra := extraHandshakeData c in
  trace c'
  = trace c ++ map CbOpen (openListeners c)
    ++ [WsSend k (mkPacket (lastSentId c + 1) (CStr "handshake")
                    (DHandshake
                       match ex_sessionId extra with
                       | Some sid => sid
                       | None => Some (hanauSessionID c)
                       end
                       match ex_lastReceivedId extra with
                       | Some n => n
                       | None => Some (lastReceivedId c)
                       end
                       (ex_rest extra)));
        SetTimer TPing 5000; SetTimer THandshake 3000]
  ∧ reconnectCount c' = 0
  ∧ alive c' = true
  ∧ handshakeComplete c' = false
  ∧ unsentQueue c' = unsentQueue c
  ∧ lastSentId c' = lastSentId c + 1.
Proof.
  intros Hws Hsock. cbn [step]. rewrite Hsock.
  unfold onopen, handshakePayload, send, open_ws. simpl. rewrite Hws.
  rewrite list_lookup_insert_eq by (by eapply lookup_lt_Some).
  unfold _startPing, set_timer, clear_timer, emit. simpl.
  destruct (pingInterval c); simpl; rewrite <- !app_assoc; done.
Qed.

Lemma open_socket_sends_handshake_witness :
  let c := open None (new_client "s") in
  let c' := open (Some (mkExtra (Some (Some "t")) None "room=1"))
                 (new_client "s") in
  trace (step c (EvOpen 0))
  = [WsNew 0;
     WsSend 0 (mkPacket 1 (CStr "handshake")
                        (DHandshake (Some "s") (Some 0) ""));
     SetTimer TPing 5000; SetTimer THandshake 3000]
  ∧ trace (step c' (EvOpen 0))
    = [WsNew 0;
       WsSend 0 (mkPacket 1 (CStr "handshake")
                          (DHandshake (Some "t") (Some 0) "room=1"));
       SetTimer TPing 5000; SetTimer THandshake 3000].
Proof.
  split.
  - exact (proj1 (open_socket_sends_handshake (open None (new_client "s")) 0
                    eq_refl eq_refl)).
  - exact (proj1 (open_socket_sends_handshake
                    (open (Some (mkExtra (Some (Some "t")) None "room=1"))
                          (new_client "s")) 0 eq_refl eq_refl)).
Defined.

(** ** The handshake timeout *)

(** An acknowledged handshake cancels its timeout: the timer that [onopen]
    armed is no longer armed after the [handshake_ack] listener has run, so
    its firing changes nothing. *)
Theorem acknowledged_handshake_cancels_timeout (c : HanauClient) (h : nat) :
  _handshakeTimeout c = Some h →
  let c' := (handshake_ack c).1 in
  handshakeComplete c' = true
  ∧ JsMap.get h (timers c') = None
  ∧ step c' (EvTimer h) = c'.
Proof.
  intros Hh c'.
  assert (handshakeComplete c' = true ∧ JsMap.get h (timers c') = None)
    as [Hc Hg].
  { unfold c', handshake_ack, clear_timer, emit. simpl. rewrite Hh. simpl.
    repeat case_match; simpl; (split; [done|]); apply get_delete_eq. }
  split; [done|]. split; [done|]. cbn [step]. by rewrite Hg.
Qed.

Lemma acknowledged_handshake_cancels_timeout_witness :
  let c := run [CallOpen None; EvOpen 0] (new_client "s") in
  step (handshake_ack c).1 (EvTimer 1) = (handshake_ack c).1.
Proof.
  exact (proj2 (proj2 (acknowledged_handshake_cancels_timeout
                         (run [CallOpen None; EvOpen 0] (new_client "s")) 1
                         eq_refl))).
Defined.

(** A handshake that is not acknowledged within the timeout makes the
    client schedule a reconnect, 1000 ms times the incremented attempt
    count later.  The socket that did not answer is not closed, and the
    ping interval keeps running on it. *)
Theorem unacknowledged_handshake_schedules_reconnect
    (c : HanauClient) (h : nat) :
  JsMap.get h (timers c) = Some THandshake →
  handshakeComplete c = false →
  mayReconnect c = true →
  reconnectCount c ≤ 5 →
  let c' := step c (EvTimer h) in
  trace c' = trace c ++ [SetTimer TReconnect (1000 * (reconnectCount c + 1))]
  ∧ reconnectCount c' = reconnectCount c + 1
  ∧ sockets c' = sockets c
  ∧ ws c' = ws c
  ∧ pingInterval c' = pingInterval c.
Proof.
  intros Hh Hc Hm Hle. cbn [step]. rewrite Hh. unfold fire.
  cbn [handshakeComplete set_timers]. rewrite Hc. simpl.
  unfold _reconnect. cbn [mayReconnect set_timers reconnectCount].
  rewrite Hm. simpl. rewrite (proj2 (Z.ltb_ge _ _) Hle).
  unfold set_timer, emit. by simpl.
Qed.

Lemma unacknowledged_handshake_schedules_reconnect_witness :
  let c := run [CallOpen None; EvOpen 0] (new_client "s") in
  trace (step c (EvTimer 1)) = trace c ++ [SetTimer TReconnect 1000].
Proof.
  refine (proj1 (unacknowledged_handshake_schedules_reconnect
                   (run [CallOpen None; EvOpen 0] (new_client "s")) 1
                   eq_refl eq_refl eq_refl _)).
  by vm_compute.
Defined.

(** ** Counters and identity *)

Lemma lastReceivedId_step c e : lastReceivedId c ≤ lastReceivedId (step c e).
Proof.
  assert (∀ c', rx_same c c' → lastReceivedId c ≤ lastReceivedId c') as Hsame
    by (intros c' [-> _]; lia).
  destruct e; cbn [step].
  - repeat case_match; try lia.
    apply Hsame, (rx_same_onopen (set_sockets _ c)).
  - unfold onmessage, _handleMessage.
    repeat case_match; try (simpl; lia);
      match goal with
      | |- _ ≤ lastReceivedId (dispatch ?m ?c0) =>
          destruct (dispatch_spec m c0) as [-> _]; simpl
      end; lia.
  - repeat case_match; try lia;
      apply Hsame, (rx_same_onclose _ (set_sockets _ c)).
  - repeat case_match; try lia;
      first [ apply Hsame, (rx_same_fire _ (set_timers _ c))
            | apply Hsame, rx_same_fire ].
  - apply Hsame, rx_same_open.
  - apply Hsame, rx_same_close.
  - apply Hsame, rx_same_send.
  - unfold on. repeat case_match; simpl; lia.
  - unfold off. repeat case_match; simpl; lia.
  - simpl. lia.
  - simpl. lia.
  - apply Hsame, rx_same_destroy.
Qed.

(** Both counters of the client belong to the client object and only move
    forward: over any run of events and calls, reconnects included, neither
    the last id sent nor the last id received ever goes down. *)
Theorem counters_never_go_down (events : list Event) (c : HanauClient) :
  lastSentId c ≤ lastSentId (run events c)
  ∧ lastReceivedId c ≤ lastReceivedId (run events c).
Proof.
  revert c. induction events as [|e events IH]; intros c; simpl; [lia|].
  destruct (IH (step c e)) as [Hs Hr].
  pose proof (lastSentId_step c e). pose proof (lastReceivedId_step c e).
  lia.
Qed.

Lemma transmitted_app t1 t2 :
  transmitted (t1 ++ t2) = transmitted t1 ++ transmitted t2.
Proof. apply omap_app. Qed.

Lemma transmitted_map (A : Type) (f : A → Effect) (l : list A) :
  (∀ x, match f x with WsSend _ _ => False | _ => True end) →
  transmitted (map f l) = [].
Proof.
  intros Hf. induction l as [|x l IH]; simpl; [done|].
  specialize (Hf x). unfold transmitted in *. simpl.
  destruct (f x); simpl; done.
Qed.

Lemma transmitted_WsSend k q : transmitted (map (WsSend k) q) = q.
Proof. induction q as [|p q IH]; simpl; [done|]. by rewrite <- IH at 2. Qed.

Lemma tx_same_trans c1 c2 c3 : tx_same c1 c2 → tx_same c2 c3 → tx_same c1 c3.
Proof.
  intros (H1 & H2 & H3 & H4) (H5 & H6 & H7 & H8).
  repeat split; congruence.
Qed.

Lemma identity_ok_same sid c c' :
  tx_same c c' → identity_ok sid c → identity_ok sid c'.
Proof.
  intros (H1 & H2 & H3 & H4) (Hid & Hex & Hq & Ht).
  unfold identity_ok. by rewrite H1, H2, H3, H4.
Qed.

Ltac tx_same_tac :=
  intros; unfold tx_same;
  unfold onclose, close, open, _startPing;
  unfold _reconnect, _stopPing;
  unfold set_timer, clear_timer, emit; simpl;
  repeat case_match; simpl; repeat (split; [done|]);
  rewrite ?transmitted_app; simpl;
  rewrite ?transmitted_map by (intros; exact I);
  rewrite ?app_nil_r; done.

Lemma tx_same__reconnect c : tx_same c (_reconnect c).
Proof. tx_same_tac. Qed.

Lemma tx_same__startPing c : tx_same c (_startPing c).
Proof. tx_same_tac. Qed.

Lemma tx_same_onclose reason c : tx_same c (onclose reason c).
Proof. tx_same_tac. Qed.

Lemma tx_same_close c : tx_same c (close c).
Proof. tx_same_tac. Qed.

Lemma tx_same_open c : tx_same c (open None c).
Proof. tx_same_tac. Qed.

(** [send] adds the packet it builds, to the wire or to the queue. *)
Lemma identity_ok_send sid cmd d c :
  (cmd = CStr "handshake" → ∃ l e, d = DHandshake (Some sid) l e) →
  identity_ok sid c → identity_ok sid (send cmd d c).
Proof.
  intros Hp (Hid & Hex & Hq & Ht). unfold identity_ok, send, emit.
  case_match; simpl; (split; [done|]); (split; [done|]); split; try done.
  - rewrite transmitted_app, Forall_app. split; [done|].
    simpl. by apply Forall_singleton.
  - rewrite Forall_app. split; [done|]. by apply Forall_singleton.
Qed.

(** The acknowledgement listener transmits what was queued. *)
Lemma identity_ok_handshake_ack sid c :
  identity_ok sid c → identity_ok sid (handshake_ack c).1.
Proof.
  intros (Hid & Hex & Hq & Ht).
  unfold identity_ok, handshake_ack, clear_timer, emit. simpl.
  destruct (_handshakeTimeout c) as [h|]; simpl;
    destruct (unsentQueue c) as [|p q] eqn:Hqe; simpl.
  all: repeat case_match; simpl; rewrite ?Hqe.
  all: (split; [done|]); (split; [done|]); split; try done.
  all: change (WsSend ?k p :: map (WsSend ?k) q) with (map (WsSend k) (p :: q)).
  all: rewrite transmitted_app, (transmitted_WsSend _ (p :: q)), Forall_app.
  all: done.
Qed.

Lemma identity_ok_call_listeners sid ls d c :
  identity_ok sid c → identity_ok sid (call_listeners ls d c).
Proof.
  revert c. induction ls as [|[|fn] ls IH]; intros c Hc; simpl; [done| |].
  - pose proof (identity_ok_handshake_ack sid c Hc) as Ha.
    destruct (handshake_ack c) as [c' returned]. simpl in Ha.
    destruct returned; [by apply IH|done].
  - apply IH. revert Hc. apply identity_ok_same. tx_same_tac.
Qed.

Lemma identity_ok_onmessage sid raw c :
  identity_ok sid c → identity_ok sid (onmessage raw c).
Proof.
  intros Hc. unfold onmessage, _handleMessage, dispatch.
  repeat case_match; try done;
    try apply identity_ok_call_listeners;
    revert Hc; apply identity_ok_same; tx_same_tac.
Qed.

(** The handshake built when a socket opens presents the client's own id
    as long as the extra data has no [sessionId] key. *)
Lemma identity_ok_onopen sid c :
  identity_ok sid c → identity_ok sid (onopen c).
Proof.
  intros Hc. unfold onopen.
  set (c1 := emit _ (set_reconnectCount 0 (set_alive true c))).
  assert (identity_ok sid (set_handshakeComplete false c1)) as Hc1.
  { revert Hc. apply identity_ok_same. unfold c1. tx_same_tac. }
  assert (handshakePayload c1 = DHandshake (Some sid)
            (default (Some (lastReceivedId c1))
                     (ex_lastReceivedId (extraHandshakeData c1)))
            (ex_rest (extraHandshakeData c1))) as Hpayload.
  { destruct Hc as (Hid & Hex & _). unfold handshakePayload, c1, emit. simpl.
    by rewrite Hex, Hid. }
  pose proof (identity_ok_send sid (CStr "handshake") (handshakePayload c1)
                (set_handshakeComplete false c1)
                (λ _, ex_intro _ _ (ex_intro _ _ Hpayload)) Hc1) as Hsent.
  revert Hsent. apply identity_ok_same.
  eapply tx_same_trans; [apply tx_same__startPing|].
  destruct (set_timer THandshake 3000 (_startPing _)) as [h c2] eqn:Ht.
  assert (c2 = (set_timer THandshake 3000
                  (_startPing (send (CStr "handshake") (handshakePayload c1)
                                    (set_handshakeComplete false c1)))).2)
    as -> by (by rewrite Ht).
  tx_same_tac.
Qed.

Lemma identity_ok_fire sid t c :
  identity_ok sid c → identity_ok sid (fire t c).
Proof.
  intros Hc. destruct t; unfold fire; repeat case_match; try done.
  - revert Hc. apply identity_ok_same, tx_same__reconnect.
  - revert Hc. apply identity_ok_same, tx_same__reconnect.
  - apply identity_ok_send; [discriminate|].
    revert Hc. apply identity_ok_same. tx_same_tac.
  - revert Hc. apply identity_ok_same, tx_same_open.
Qed.

Lemma identity_ok_destroy sid c :
  identity_ok sid c → identity_ok sid (destroy c).
Proof.
  intros (Hid & Hex & Hq & Ht).
  assert (tx_same c (_stopPing (close c))) as (H1 & H2 & _ & H4).
  { eapply tx_same_trans; [apply tx_same_close|]. tx_same_tac. }
  unfold identity_ok, destroy.
  cbn [hanauSessionID extraHandshakeData unsentQueue trace
         set_messageListeners set_openListeners set_closeListeners
         set_unsentQueue].
  rewrite H1, H2, H4. done.
Qed.

Lemma identity_ok_step sid c e :
  keeps_identity e → identity_ok sid c → identity_ok sid (step c e).
Proof.
  intros He Hc. destruct e; cbn [step].
  - repeat case_match; try done. apply identity_ok_onopen.
    revert Hc. apply identity_ok_same. tx_same_tac.
  - repeat case_match; try done; by apply identity_ok_onmessage.
  - repeat case_match; try done;
      (eapply identity_ok_same; [apply tx_same_onclose|]);
      revert Hc; apply identity_ok_same; tx_same_tac.
  - repeat case_match; try done; apply identity_ok_fire; try done;
      revert Hc; apply identity_ok_same; tx_same_tac.
  - destruct extra as [x|]; simpl in He.
    + destruct Hc as (Hid & Hex & Hq & Ht). unfold identity_ok, open, emit.
      simpl. rewrite transmitted_app, app_nil_r. done.
    + revert Hc. apply identity_ok_same, tx_same_open.
  - revert Hc. apply identity_ok_same, tx_same_close.
  - apply identity_ok_send; [|done]. intros ->. by destruct He.
  - revert Hc. apply identity_ok_same. unfold on. tx_same_tac.
  - revert Hc. apply identity_ok_same. unfold off. tx_same_tac.
  - revert Hc. apply identity_ok_same. unfold onOpen. tx_same_tac.
  - revert Hc. apply identity_ok_same. unfold onClose. tx_same_tac.
  - by apply identity_ok_destroy.
Qed.

Lemma sid_call_listeners ls d c :
  hanauSessionID (call_listeners ls d c) = hanauSessionID c.
Proof.
  revert c. induction ls as [|[|fn] ls IH]; intros c; simpl; [done| |].
  - assert (hanauSessionID (handshake_ack c).1 = hanauSessionID c) as H1
      by (unfold handshake_ack, clear_timer, emit; by repeat case_match).
    destruct (handshake_ack c) as [c' returned]. simpl in *.
    destruct returned; [|done]. by rewrite IH.
  - by rewrite IH.
Qed.

Ltac sid_tac :=
  intros;
  unfold destroy, onopen, onclose, close, open, _startPing;
  unfold _reconnect, _stopPing, handshake_ack, send;
  unfold set_timer, clear_timer, emit; simpl;
  repeat case_match; simpl; done.

Lemma sid_onopen c : hanauSessionID (onopen c) = hanauSessionID c.
Proof. sid_tac. Qed.

Lemma sid_onclose reason c :
  hanauSessionID (onclose reason c) = hanauSessionID c.
Proof. sid_tac. Qed.

Lemma sid_fire t c : hanauSessionID (fire t c) = hanauSessionID c.
Proof. destruct t; unfold fire; sid_tac. Qed.

Lemma sid_onmessage raw c : hanauSessionID (onmessage raw c) = hanauSessionID c.
Proof.
  unfold onmessage, _handleMessage, dispatch. repeat case_match; try done.
  all: by rewrite sid_call_listeners.
Qed.

Lemma hanauSessionID_step c e : hanauSessionID (step c e) = hanauSessionID c.
Proof.
  destruct e; cbn [step].
  - repeat case_match; try done. by rewrite sid_onopen.
  - repeat case_match; try done; by rewrite sid_onmessage.
  - repeat case_match; try done; by rewrite sid_onclose.
  - repeat case_match; try done; by rewrite sid_fire.
  - sid_tac.
  - sid_tac.
  - sid_tac.
  - unfold on. by repeat case_match.
  - unfold off. by repeat case_match.
  - done.
  - done.
  - sid_tac.
Qed.

(** The session id drawn at construction is never changed, and it is the
    one the client presents: as long as the application passes no extra
    handshake data with a [sessionId] key and sends no [handshake] command
    of its own, every handshake the client ever transmits, and every one
    still in its queue, carries the id drawn at construction.  Reconnects,
    queue flushes and [destroy] make no difference. *)
Theorem handshake_identity_is_stable (sid : string) (events : list Event) :
  hanauSessionID (run events (new_client sid)) = sid
  ∧ (Forall keeps_identity events →
     Forall (presents sid) (transmitted (trace (run events (new_client sid))))
     ∧ Forall (presents sid) (unsentQueue (run events (new_client sid)))).
Proof.
  assert (∀ c, hanauSessionID (run events c) = hanauSessionID c) as Hid.
  { induction events as [|e events IH]; intros c; simpl; [done|].
    by rewrite IH, hanauSessionID_step. }
  split; [by rewrite Hid|]. intros Hev.
  assert (∀ c, identity_ok sid c → identity_ok sid (run events c)) as Hrun.
  { clear Hid. induction Hev as [|e events He Hev IH]; intros c Hc; simpl;
      [done|].
    by apply IH, identity_ok_step. }
  destruct (Hrun (new_client sid)) as (_ & _ & Hq & Ht); [|done].
  unfold identity_ok. by vm_compute.
Qed.

Lemma handshake_identity_is_stable_witness :
  let events := [CallSend (CStr "a") DNull;
                 CallOpen (Some (mkExtra None (Some (Some 7)) "token"));
                 EvOpen 0; EvClose 0 ""; EvTimer 2; EvOpen 1;
                 EvMessage 1 (RawMsg (mkPacket 1 (CStr "handshake_ack") DNull))]
  in
  Forall (presents "s") (transmitted (trace (run events (new_client "s")))).
Proof.
  refine (proj1 (proj2 (handshake_identity_is_stable "s"
            [CallSend (CStr "a") DNull;
             CallOpen (Some (mkExtra None (Some (Some 7)) "token"));
             EvOpen 0; EvClose 0 ""; EvTimer 2; EvOpen 1;
             EvMessage 1 (RawMsg (mkPacket 1 (CStr "handshake_ack") DNull))])
            _)).
  repeat constructor; discriminate.
Defined.

(** ** The ping cycle *)

Lemma get_app_Some {K V : Type} `{EqDecision K} (k : K) (v : V) m m' :
  JsMap.get k m = Some v → JsMap.get k (m ++ m') = Some v.
Proof.
  induction m as [|[k' v'] m IH]; simpl; [done|]. by case_decide.
Qed.

(** The client's ping cycle.  A tick of the ping interval on a client that
    heard from the server clears the flag and builds a [ping] with the next
    id: the ping is transmitted if the current socket is open and queued
    otherwise.  Any [pong] frame, whatever its id and whichever open socket
    delivers it, sets the flag again; it reaches no listener and leaves
    [lastReceivedId] alone, and the next tick pings again.  If no pong came,
    the next tick builds no ping: it schedules a reconnect while
    reconnection is permitted and attempts are left, and it neither closes
    the silent socket nor stops the interval. *)
Theorem ping_cycle (c : HanauClient) (h : nat) :
  JsMap.get h (timers c) = Some TPing →
  alive c = true →
  let ping := mkPacket (lastSentId c + 1) (CStr "ping") DNull in
  let c1 := step c (EvTimer h) in
  (alive c1 = false
   ∧ lastSentId c1 = lastSentId c + 1
   ∧ match open_ws c with
     | Some k =>
         trace c1 = trace c ++ [WsSend k ping] ∧ unsentQueue c1 = unsentQueue c
     | None =>
         trace c1 = trace c ∧ unsentQueue c1 = unsentQueue c ++ [ping]
     end)
  ∧ (∀ k n d,
       sockets c1 !! k = Some OPEN →
       let c2 := step c1 (EvMessage k (RawMsg (mkPacket n (CStr "pong") d))) in
       alive c2 = true
       ∧ trace c2 = trace c1
       ∧ lastReceivedId c2 = lastReceivedId c
       ∧ lastSentId (step c2 (EvTimer h)) = lastSentId c + 2)
  ∧ (let c3 := step c1 (EvTimer h) in
     trace c3
     = trace c1
       ++ (if mayReconnect c && bool_decide (reconnectCount c ≤ 5)
           then [SetTimer TReconnect (1000 * (reconnectCount c + 1))]
           else [])
     ∧ lastSentId c3 = lastSentId c1
     ∧ unsentQueue c3 = unsentQueue c1
     ∧ ws c3 = ws c
     ∧ sockets c3 = sockets c
     ∧ JsMap.get h (timers c3) = Some TPing).
Proof.
  intros Hh Halive ping c1.
  assert (c1 = send (CStr "ping") DNull (set_alive false c)) as Hc1
    by (unfold c1; cbn [step]; rewrite Hh; unfold fire; by rewrite Halive).
  assert (alive c1 = false ∧ lastSentId c1 = lastSentId c + 1
          ∧ timers c1 = timers c ∧ lastReceivedId c1 = lastReceivedId c
          ∧ mayReconnect c1 = mayReconnect c
          ∧ reconnectCount c1 = reconnectCount c
          ∧ ws c1 = ws c ∧ sockets c1 = sockets c)
    as (Ha & Hl & Ht & Hr & Hm & Hn & Hws & Hso)
    by (rewrite Hc1; unfold send, emit; by case_match).
  split; [|split].
  - split; [done|]. split; [done|]. rewrite Hc1. unfold send.
    change (open_ws (set_lastSentId _ (set_alive false c))) with (open_ws c).
    by destruct (open_ws c).
  - intros k n d Hk c2.
    assert (c2 = set_alive true c1) as -> by (unfold c2; cbn [step]; by rewrite Hk).
    split; [done|]. split; [done|]. split; [done|].
    cbn [step timers set_alive]. rewrite Ht, Hh. unfold fire.
    cbn [alive set_alive negb].
    destruct (send_stamps_next_id (CStr "ping") DNull
                (set_alive false (set_alive true c1))) as [-> _].
    simpl. lia.
  - cbn [step]. rewrite Ht, Hh. unfold fire. rewrite Ha. cbn [negb].
    unfold _reconnect. rewrite Hm, Hn.
    destruct (mayReconnect c); simpl; [|by rewrite app_nil_r, Ht].
    case_bool_decide as Hle.
    + rewrite (proj2 (Z.ltb_ge _ _) Hle). unfold set_timer, emit. simpl.
      rewrite ?Hn, ?Ht. repeat (split; [done|]). by apply get_app_Some.
    + rewrite (proj2 (Z.ltb_lt 5 _)) by lia. simpl.
      by rewrite app_nil_r, Ht.
Qed.

Lemma ping_cycle_witness :
  let c := connected_client in
  trace (step c (EvTimer 0))
  = trace c ++ [WsSend 0 (mkPacket 2 (CStr "ping") DNull)]
  ∧ trace (step (step c (EvTimer 0)) (EvTimer 0))
    = trace c ++ [WsSend 0 (mkPacket 2 (CStr "ping") DNull);
                  SetTimer TReconnect 1000].
Proof.
  destruct (ping_cycle connected_client 0 eq_refl eq_refl)
    as ((_ & _ & Ht & _) & _ & (Ht3 & _)).
  split; [exact Ht|]. rewrite Ht3. cbv zeta in Ht. rewrite Ht.
  rewrite <- app_assoc. f_equal.
Defined.

(** ** Message listeners *)










(** ** After destroy *)




End ClientMore.
